(** * tsh: the job-control core of a tiny shell (src/tsh.c)

    A shallow embedding of the job list, of the SIGCHLD handler and of the
    mainline functions eval, waitfg and do_bgfg, together with the
    properties of the job-control design that hold (or fail) on the code.

    Conventions.
    - C [int], [pid_t] and [sig_atomic_t] values are [Z].  The program's
      only arithmetic is [nextjid++] and [maxjid(jobs) + 1]; it would take
      2^31 launches to overflow it, and overflow is not modelled.
    - The job list [jobs] is a [list job_t] of [MAXJOBS] slots; a pointer
      [struct job_t*] into it is the index of the slot, [NULL] is [None].
      Dereferencing [NULL] is undefined behaviour and is modelled by the
      outcome [Fault].
    - A [char*] or [char[MAXLINE]] holding a C string is a [string]. *)

From Stdlib Require Import Ascii String DecimalString.
From stdpp Require Import base numbers list strings.

Local Open Scope string_scope.
Local Open Scope list_scope.
Local Open Scope Z_scope.

(** ** Manifest constants (tsh.c:19-33) *)

Definition MAXJOBS : Z := 16.

Definition UNDEF : Z := 0.
Definition FG : Z := 1.
Definition BG : Z := 2.
Definition ST : Z := 3.

Definition EXIT : Z := 1.
Definition INTR : Z := 2.
Definition TSTP : Z := 3.

(** Signal numbers and the wait-status macros come from the system headers
    (<signal.h>, <sys/wait.h>), which are not part of the repository; the
    values below are those of Linux. *)
Definition SIGINT : Z := 2.
Definition SIGQUIT : Z := 3.
Definition SIGCHLD : Z := 17.
Definition SIGCONT : Z := 18.
Definition SIGTSTP : Z := 20.
Definition ECHILD : Z := 10.
Definition ERANGE : Z := 34.

Definition WTERMSIG (status : Z) : Z := Z.land status 127.
Definition WIFSTOPPED (status : Z) : bool := Z.land status 255 =? 127.

(** A [sigset_t] is a bit mask, signal [sig] being bit [sig - 1]. *)
Definition sigset := Z.
Definition sigemptyset : sigset := 0.
Definition sigaddset (set : sigset) (sig : Z) : sigset :=
  Z.lor set (Z.shiftl 1 (sig - 1)).
Definition sigismember (set : sigset) (sig : Z) : bool :=
  Z.testbit set (sig - 1).

(** ** The job struct and the job list (tsh.c:52-59) *)

Record job_t := mkjob {
  pid : Z;
  jid : Z;
  state : Z;
  cmdline : string
}.

(** [clearjob] (tsh.c:629-636). *)
Definition clearjob (job : job_t) : job_t :=
  {| pid := 0; jid := 0; state := UNDEF; cmdline := "" |}.

(** [initjobs] (tsh.c:639-646), on a list of any length. *)
Definition initjobs (jobs : list job_t) : list job_t := clearjob <$> jobs.

(** The list at program start: 16 zeroed slots (static storage). *)
Definition jobs0 : list job_t :=
  replicate (Z.to_nat MAXJOBS) (mkjob 0 0 0 "").

(** The scans [for (i = 0; i < MAXJOBS; i++) if (test(jobs[i])) return ...]
    all stop at the first slot that passes the test. *)
Fixpoint scan (test : job_t → bool) (jobs : list job_t) : option nat :=
  match jobs with
  | [] => None
  | job :: rest => if test job then Some 0%nat else S <$> scan test rest
  end.

(** [maxjid] (tsh.c:650-658). *)
Definition maxjid (jobs : list job_t) : Z :=
  fold_left (fun max job => if jid job >? max then jid job else max) jobs 0.

(** [fgpid] (tsh.c:709-717). *)
Definition fgpid (jobs : list job_t) : Z :=
  match scan (fun job => state job =? FG) jobs with
  | Some i => default 0 (pid <$> jobs !! i)
  | None => 0
  end.

(** [getjobpid] (tsh.c:721-731). *)
Definition getjobpid (jobs : list job_t) (p : Z) : option nat :=
  if p <? 1 then None else scan (fun job => pid job =? p) jobs.

(** [getjobjid] (tsh.c:735-745). *)
Definition getjobjid (jobs : list job_t) (j : Z) : option nat :=
  if j <? 1 then None else scan (fun job => jid job =? j) jobs.

(** [pid2jid] (tsh.c:749-760). *)
Definition pid2jid (jobs : list job_t) (p : Z) : Z :=
  if p <? 1 then 0
  else match scan (fun job => pid job =? p) jobs with
       | Some i => default 0 (jid <$> jobs !! i)
       | None => 0
       end.

(** Field stores through a job pointer. *)
Definition set_state (s : Z) (job : job_t) : job_t :=
  {| pid := pid job; jid := jid job; state := s; cmdline := cmdline job |}.

(** ** Output: printf and kill as events *)

Inductive arg := D (n : Z) | S_ (s : string).

Definition nl : string := String "010"%char EmptyString.

(** Decimal rendering of [%d]. *)
Definition fmt_d (n : Z) : string := NilZero.string_of_int (Z.to_int n).

(** The conversions used by the program: [%d], [%s] and [%%]; the escape
    [\n] of a C string literal is written as in the source and decoded
    here. *)
Fixpoint sprintf (fmt : string) (args : list arg) : string :=
  match fmt with
  | EmptyString => EmptyString
  | String "%" (String "%" rest) => String "%" (sprintf rest args)
  | String "%" (String "d" rest) =>
      match args with
      | D n :: args' => String.append (fmt_d n) (sprintf rest args')
      | _ => sprintf rest (tail args)
      end
  | String "%" (String "s" rest) =>
      match args with
      | S_ s :: args' => String.append s (sprintf rest args')
      | _ => sprintf rest (tail args)
      end
  | String "\" (String "n" rest) => String.append nl (sprintf rest args)
  | String c rest => String c (sprintf rest args)
  end.

Inductive event :=
| Stdout (text : string)
| Stderr (text : string)
| Kill (target sig : Z)
| Sleep (secs : Z).

(** ** The global variables (tsh.c:46-63) and the process's signal state *)

Record shell := mkshell {
  jobs : list job_t;     (* struct job_t jobs[MAXJOBS] *)
  nextjid : Z;           (* next job ID to allocate *)
  verbose : Z;           (* if true, print additional output *)
  flag : Z;              (* volatile sig_atomic_t flag *)
  errno : Z;
  sigmask : sigset;      (* the blocked signals of the process *)
  out : list event       (* what has been printed and signalled so far *)
}.

Definition with_jobs (js : list job_t) (sh : shell) : shell :=
  mkshell js (nextjid sh) (verbose sh) (flag sh) (errno sh) (sigmask sh) (out sh).
Definition with_nextjid (n : Z) (sh : shell) : shell :=
  mkshell (jobs sh) n (verbose sh) (flag sh) (errno sh) (sigmask sh) (out sh).
Definition with_flag (f : Z) (sh : shell) : shell :=
  mkshell (jobs sh) (nextjid sh) (verbose sh) f (errno sh) (sigmask sh) (out sh).
Definition with_errno (e : Z) (sh : shell) : shell :=
  mkshell (jobs sh) (nextjid sh) (verbose sh) (flag sh) e (sigmask sh) (out sh).
Definition with_sigmask (m : sigset) (sh : shell) : shell :=
  mkshell (jobs sh) (nextjid sh) (verbose sh) (flag sh) (errno sh) m (out sh).
Definition emit (e : event) (sh : shell) : shell :=
  mkshell (jobs sh) (nextjid sh) (verbose sh) (flag sh) (errno sh) (sigmask sh)
          (out sh ++ [e]).

Definition printf (fmt : string) (args : list arg) : shell → shell :=
  emit (Stdout (sprintf fmt args)).
Definition eprintf (fmt : string) (args : list arg) : shell → shell :=
  emit (Stderr (sprintf fmt args)).
(** [kill] stands for a call that succeeds; a call that fails would also
    store its error number in errno. *)
Definition kill (target sig : Z) : shell → shell := emit (Kill target sig).

(** The shell as [main] leaves it before the read/eval loop: [nextjid = 1],
    the job list initialised, no signal blocked. *)
Definition shell0 (v : Z) : shell :=
  mkshell (initjobs jobs0) 1 v 0 0 sigemptyset [].

(** [addjob] (tsh.c:662-686): the result is the returned int and the new
    globals. *)
Definition addjob (sh : shell) (p st : Z) (cl : string) : Z * shell :=
  if p <? 1 then (0, sh)
  else
    match scan (fun job => pid job =? 0) (jobs sh) with
    | Some i =>
        let job := {| pid := p; state := st; jid := nextjid sh; cmdline := cl |} in
        let next := nextjid sh + 1 in
        let next := if next >? MAXJOBS then 1 else next in
        let sh := with_nextjid next (with_jobs (<[i := job]> (jobs sh)) sh) in
        let sh := if verbose sh =? 0 then sh
                  else printf "Added job [%d] %d %s\n"
                              [D (jid job); D (pid job); S_ (cmdline job)] sh in
        (1, sh)
    | None => (0, printf "Tried to create too many jobs\n" [] sh)
    end.

(** [deletejob] (tsh.c:690-705). *)
Definition deletejob (sh : shell) (p : Z) : Z * shell :=
  if p <? 1 then (0, sh)
  else
    match scan (fun job => pid job =? p) (jobs sh) with
    | Some i =>
        let js := alter clearjob i (jobs sh) in
        (1, with_nextjid (maxjid js + 1) (with_jobs js sh))
    | None => (0, sh)
    end.

(** ** The SIGCHLD handler (tsh.c:523-579) *)

(** What the kernel would report to [waitpid(-1, &status, WNOHANG |
    WUNTRACED)]: the children with an unreported status change, as
    (pid, status), and whether no child at all is left once these are
    reported (then waitpid fails with ECHILD instead of returning 0). *)
Record kernel := mkkernel {
  waitable : list (Z * Z);
  nochild : bool
}.

Inductive outcome (A : Type) :=
| Ret (a : A)      (* the function returns *)
| Fault.           (* a NULL pointer is dereferenced *)
Arguments Ret {A} a.
Arguments Fault {A}.

(** How one execution of a loop body ends. *)
Inductive flow (A : Type) :=
| Continue (a : A)   (* falls through to the loop condition *)
| Return (a : A)     (* executes [return] *)
| Crash.
Arguments Continue {A} a.
Arguments Return {A} a.
Arguments Crash {A}.

(** The body of the reaping loop (tsh.c:551-569) for a reaped [p]. *)
Definition chld_body (p status : Z) (sh : shell) : flow shell :=
  match getjobpid (jobs sh) p with
  | None => Crash                           (* getjobpid(jobs, pid)->state *)
  | Some i =>
      let sh := with_jobs (alter (set_state ST) i (jobs sh)) sh in
      if WTERMSIG status =? SIGINT then
        Return (snd (deletejob (with_flag INTR sh) p))
      else if WIFSTOPPED status then
        Return (with_flag TSTP sh)
      else
        Return (snd (deletejob (with_flag EXIT sh) p))
  end.

(** The loop [while ((pid = waitpid(...)) > 0) body] followed by the
    epilogue (tsh.c:549-578).  The result carries what is still waitable
    when the handler returns. *)
Fixpoint chld_while (ws : list (Z * Z)) (none : bool) (olderrno : Z)
    (prev : sigset) (sh : shell) : outcome (kernel * shell) :=
  let epilogue sh :=
    (* errno = olderrno; sigprocmask(SIG_SETMASK, &prev, NULL) *)
    Ret (mkkernel ws none, with_sigmask prev (with_errno olderrno sh)) in
  match ws with
  | [] => epilogue (if none then with_errno ECHILD sh else sh)
  | (p, status) :: rest =>
      if p >? 0 then
        match chld_body p status sh with
        | Continue sh' => chld_while rest none olderrno prev sh'
        | Return sh' => Ret (mkkernel rest none, sh')
        | Crash => Fault
        end
      else epilogue sh
  end.

(** The set [intr] the handler builds (tsh.c:533-540). *)
Definition intr_set : sigset :=
  sigaddset (sigaddset (sigaddset sigemptyset SIGCHLD) SIGINT) SIGTSTP.

Definition sigchld_handler (k : kernel) (sh : shell) : outcome (kernel * shell) :=
  let intr := intr_set in
  let prev := sigmask sh in
  let sh := with_sigmask (Z.lor prev intr) sh in    (* SIG_BLOCK *)
  let olderrno := errno sh in
  chld_while (waitable k) (nochild k) olderrno prev sh.

(** [sigint_handler] and [sigtstp_handler] (tsh.c:586-618). *)
Definition sigint_handler (sig : Z) (sh : shell) : shell :=
  let intpid := fgpid (jobs sh) in
  if intpid =? 0 then sh else kill (- intpid) sig sh.

Definition sigtstp_handler (sig : Z) (sh : shell) : shell :=
  let intpid := fgpid (jobs sh) in
  if intpid =? 0 then sh else kill (- intpid) sig sh.

(** ** C library functions used by do_bgfg *)

(** [strncmp(s1, s2, n) == 0]. *)
Fixpoint strncmp0 (s1 s2 : string) (n : nat) {struct n} : bool :=
  match n with
  | O => true
  | S n' =>
      match s1, s2 with
      | EmptyString, EmptyString => true
      | String c1 r1, String c2 r2 =>
          if Ascii.eqb c1 c2 then strncmp0 r1 r2 n' else false
      | _, _ => false
      end
  end.

Arguments strncmp0 : simpl never.

Definition isspace (c : ascii) : bool :=
  let n := nat_of_ascii c in
  ((n =? 32) || ((9 <=? n) && (n <=? 13)))%nat.

Definition isdigit (c : ascii) : bool :=
  let n := nat_of_ascii c in ((48 <=? n) && (n <=? 57))%nat.

Fixpoint skip_spaces (s : string) : string :=
  match s with
  | String c r => if isspace c then skip_spaces r else s
  | EmptyString => s
  end.

Fixpoint digits (s : string) (acc : Z) : Z :=
  match s with
  | String c r =>
      if isdigit c then digits r (acc * 10 + (Z.of_nat (nat_of_ascii c) - 48))
      else acc
  | EmptyString => acc
  end.

Definition LONG_MAX : Z := 2 ^ 63 - 1.
Definition LONG_MIN : Z := - 2 ^ 63.

(** [strtol(s, NULL, 10)] with a 64-bit [long]: the value and, when it is
    out of range, the [ERANGE] stored in errno.  No digits give 0. *)
Definition strtol (s : string) : Z * option Z :=
  let s := skip_spaces s in
  let '(neg, s) :=
    match s with
    | String "-" r => (true, r)
    | String "+" r => (false, r)
    | _ => (false, s)
    end in
  let v := digits s 0 in
  let v := if neg : bool then - v else v in
  if v >? LONG_MAX then (LONG_MAX, Some ERANGE)
  else if v <? LONG_MIN then (LONG_MIN, Some ERANGE)
  else (v, None).

(** The conversion of the [long] result to the [int] it is assigned to. *)
Definition to_int (v : Z) : Z := (v + 2 ^ 31) mod 2 ^ 32 - 2 ^ 31.

(** [int x = strtol(s, NULL, 10)], with its effect on errno. *)
Definition strtol_int (s : string) (sh : shell) : Z * shell :=
  let '(v, e) := strtol s in
  (to_int v, match e with Some e => with_errno e sh | None => sh end).

(** [listjobs] (tsh.c:764-788); [i] is the loop index of the first slot of
    [js]. *)
Fixpoint listjobs_from (i : Z) (js : list job_t) (sh : shell) : shell :=
  match js with
  | [] => sh
  | job :: rest =>
      let sh :=
        if pid job =? 0 then sh
        else
          let sh := printf "[%d] (%d) " [D (jid job); D (pid job)] sh in
          let sh :=
            if state job =? BG then printf "Running " [] sh
            else if state job =? FG then printf "Foreground " [] sh
            else if state job =? ST then printf "Stopped " [] sh
            else printf "listjobs: Internal error: job[%d].state=%d "
                        [D i; D (state job)] sh in
          printf "%s" [S_ (cmdline job)] sh in
      listjobs_from (i + 1) rest sh
  end.

Definition listjobs (js : list job_t) (sh : shell) : shell :=
  listjobs_from 0 js sh.

(** ** parseline (tsh.c:293-340) *)

Definition MAXLINE : Z := 1024.
Definition MAXARGS : Z := 128.

(** [buf[strlen(buf) - 1] = ' '] on a string that is not empty. *)
Fixpoint set_last_space (s : string) : string :=
  match s with
  | EmptyString => EmptyString
  | String c r =>
      match r with
      | EmptyString => String " " EmptyString
      | String _ _ => String c (set_last_space r)
      end
  end.

(** The loop that moves [buf] past the blanks it points at
    (tsh.c:304-305, 320-321). *)
Fixpoint skip_blanks (buf : string) : string :=
  match buf with
  | String c r => if Ascii.eqb c " " then skip_blanks r else buf
  | EmptyString => buf
  end.

(** [delim = strchr(buf, c)] for a [c] other than NUL: the text before
    [delim] and the text from [delim + 1] on. *)
Fixpoint strchr (buf : string) (c : ascii) : option (string * string) :=
  match buf with
  | EmptyString => None
  | String a r =>
      if Ascii.eqb a c then Some (EmptyString, r)
      else
        match strchr r c with
        | Some (t, rest) => Some (String a t, rest)
        | None => None
        end
  end.

(** The search for the delimiter of the next argument (tsh.c:309-314 and
    323-328): the argument once [*delim = '\0'] is stored, and
    [delim + 1]. *)
Definition next_arg (buf : string) : option (string * string) :=
  match buf with
  | String a r => if Ascii.eqb a "'" then strchr r "'" else strchr buf " "
  | EmptyString => strchr buf " "
  end.

(** The loop [while (delim)] (tsh.c:316-329).  Every iteration moves [buf]
    past a delimiter, so the length of [buf] bounds their number. *)
Fixpoint parse_args (fuel : nat) (buf : string) : list string :=
  match fuel with
  | O => []
  | S fuel' =>
      match next_arg buf with
      | Some (a, rest) => a :: parse_args fuel' (skip_blanks rest)
      | None => []
      end
  end.

(** [parseline(cmdline, argv)]: the arguments stored in [argv] up to its
    NULL, and the value returned.  The copy into [array] needs
    [strlen(cmdline) < MAXLINE], the store at [strlen(buf) - 1] a string
    that is not empty, and the stores into [argv] fewer than [MAXARGS]
    arguments; outside of these the behaviour is undefined. *)
Definition parseline (cmdline : string) : outcome (list string * Z) :=
  if MAXLINE <=? Z.of_nat (String.length cmdline) then Fault
  else
    match cmdline with
    | EmptyString => Fault
    | String _ _ =>
        let buf := skip_blanks (set_last_space cmdline) in
        let argv := parse_args (String.length buf) buf in
        if MAXARGS <=? Z.of_nat (length argv) then Fault
        else
          match last argv with
          | None => Ret ([], 1)
          | Some a =>
              match a with
              | String c _ =>
                  if Ascii.eqb c "&" then Ret (removelast argv, 1)
                  else Ret (argv, 0)
              | EmptyString => Ret (argv, 0)
              end
          end
    end.

(** ** The mainline as a machine

    The command loop of [main] runs [eval] on each line; [eval], [waitfg]
    and [do_bgfg] are cut at every statement that reads or writes the job
    list, so that a signal handler can run between any two of them.  A
    program point carries the local variables that are live there.  A
    signal handler, and [listjobs], runs as one move: a handler that
    interrupts another handler or [listjobs] is not part of the machine. *)

Inductive pc :=
| Prompt                                     (* main: fgets (tsh.c:173) *)
| Halted (code : Z)                          (* exit(code) *)
| Faulted                                    (* NULL dereference *)
(* eval, parent side of a non-builtin command *)
| EvBlock (cl : string) (fginit : bool)      (* :232 sigprocmask(SIG_BLOCK) *)
| EvFork (cl : string) (fginit : bool) (prev : sigset)           (* :233 *)
| EvAdd (cl : string) (fginit : bool) (prev : sigset) (p : Z)    (* :251-258 *)
| EvRestore (prev : sigset) (p : Z)          (* :261 sigprocmask(SIG_SETMASK) *)
| EvLookup (p : Z)                           (* :264-265 *)
| EvBranch (p : Z) (job : nat) (j : Z)       (* :268 *)
| EvPrint (p : Z) (job : nat) (j : Z)        (* :276 *)
(* waitfg *)
| WfLookup (p : Z)                           (* :480-481 *)
| WfCheck (p j : Z)                          (* :484 *)
| WfLoop (p j : Z)                           (* :488-489 *)
| WfReport (p j : Z)                         (* :493-506 *)
(* do_bgfg *)
| BfStart (argv : list string)               (* :380-394, :409-418 *)
| BfJidLookup (argv0 : string) (myjid : Z)   (* :395 *)
| BfJidMax (argv0 : string) (myjid : Z) (myjob : option nat)     (* :399 *)
| BfJidPid (argv0 : string) (myjid : Z) (myjob : option nat)     (* :404 *)
| BfPidLookup (argv0 : string) (mypid : Z)   (* :420 *)
| BfPidCheck (argv0 : string) (mypid : Z) (myjob : option nat)   (* :423 *)
| BfPidJid (argv0 : string) (mypid : Z) (myjob : option nat)     (* :428 *)
| BfPidState (argv0 : string) (mypid myjid : Z) (myjob : nat)    (* :433 *)
| BfDispatch (argv0 : string) (mypid myjid : Z) (myjob : nat)    (* :440, :459 *)
| BfFgStop (mypid : Z) (myjob : nat)         (* :443 *)
| BfFgSet (mypid : Z) (myjob : nat)          (* :446 *)
| BfFgCont (mypid : Z)                       (* :449 *)
| BfFgWait                                   (* :453 *)
| BfBgSet (mypid myjid : Z) (myjob : nat)    (* :462 *)
| BfBgPrint (mypid myjid : Z) (myjob : nat)  (* :463 *)
| BfBgCont (mypid : Z).                      (* :466 *)

Definition chld_block : sigset := sigaddset sigemptyset SIGCHLD.

(** [eval] from the first [sigprocmask] on (tsh.c:232-283); [fork] is the
    environment's move, see [step]. *)
Definition eval_tick (c : pc) (sh : shell) : option (pc * shell) :=
  match c with
  | EvBlock cl fginit =>
      Some (EvFork cl fginit (sigmask sh),
            with_sigmask (Z.lor (sigmask sh) chld_block) sh)
  | EvAdd cl fginit prev p =>
      (* invalidcmd is 0 in the parent *)
      Some (EvRestore prev p,
            snd (addjob sh p (if fginit then FG else BG) cl))
  | EvRestore prev p => Some (EvLookup p, with_sigmask prev sh)
  | EvLookup p =>
      match getjobpid (jobs sh) p with
      | Some i =>
          match jobs sh !! i with
          | Some job => Some (EvBranch p i (jid job), sh)
          | None => Some (Faulted, sh)
          end
      | None => Some (Faulted, sh)                 (* job->jid with job NULL *)
      end
  | EvBranch p i j =>
      match jobs sh !! i with
      | Some job =>
          if state job =? FG then Some (WfLookup p, sh)
          else Some (EvPrint p i j, sh)
      | None => Some (Faulted, sh)
      end
  | EvPrint p i j =>
      match jobs sh !! i with
      | Some job =>
          Some (Prompt, printf "[%d] (%d) %s" [D j; D p; S_ (cmdline job)] sh)
      | None => Some (Faulted, sh)
      end
  | _ => None
  end.

(** [waitfg] (tsh.c:476-509); both callers return to the command loop when
    it returns. *)
Definition waitfg_tick (c : pc) (sh : shell) : option (pc * shell) :=
  match c with
  | WfLookup p =>
      match getjobpid (jobs sh) p with
      | Some i =>
          match jobs sh !! i with
          | Some job => Some (WfCheck p (jid job), sh)
          | None => Some (Faulted, sh)
          end
      | None => Some (Faulted, sh)                 (* job->jid with job NULL *)
      end
  | WfCheck p j =>
      if fgpid (jobs sh) =? 0 then Some (Prompt, sh)
      else Some (WfLoop p j, sh)
  | WfLoop p j =>
      if p =? fgpid (jobs sh) then Some (WfLoop p j, emit (Sleep 1) sh)
      else Some (WfReport p j, sh)
  | WfReport p j =>
      if flag sh =? TSTP then
        Some (Prompt, printf "Job [%d] (%d) is stopped by signal %d\n"
                             [D j; D p; D SIGTSTP] sh)
      else if flag sh =? INTR then
        Some (Prompt, printf "Job [%d] (%d) is terminated by signal %d\n"
                             [D j; D p; D SIGINT] sh)
      else Some (Prompt, sh)
  | _ => None
  end.

(** [do_bgfg] (tsh.c:376-470). *)
Definition do_bgfg_tick (c : pc) (sh : shell) : option (pc * shell) :=
  match c with
  | BfStart argv =>
      match argv with
      | [] => Some (Faulted, sh)       (* eval never passes a NULL argv[0] *)
      | argv0 :: _ =>
          match argv !! 1%nat with
          | None =>
              Some (Prompt,
                    eprintf "%s command requires PID or %%jobid argument\n"
                            [S_ argv0] sh)
          | Some a1 =>
              if strncmp0 a1 "%" 1 then
                (* given job is expressed as jid: strtol(++argv[1], ...) *)
                let rest := match a1 with String _ r => r | EmptyString => a1 end in
                let '(myjid, sh) := strtol_int rest sh in
                Some (BfJidLookup argv0 myjid, sh)
              else
                let olderr := errno sh in
                let '(mypid, sh) := strtol_int a1 sh in
                if negb (errno sh =? 0) && (mypid =? 0) then
                  Some (Prompt,
                        with_errno olderr
                          (eprintf "argument must be a PID or %%jobid\n" [] sh))
                else Some (BfPidLookup argv0 mypid, sh)
          end
      end
  | BfJidLookup argv0 myjid =>
      Some (BfJidMax argv0 myjid (getjobjid (jobs sh) myjid), sh)
  | BfJidMax argv0 myjid myjob =>
      if myjid >? maxjid (jobs sh) then
        Some (Prompt, eprintf "%%%d : No such job\n" [D myjid] sh)
      else Some (BfJidPid argv0 myjid myjob, sh)
  | BfJidPid argv0 myjid myjob =>
      match myjob with
      | Some i =>
          match jobs sh !! i with
          | Some job => Some (BfDispatch argv0 (pid job) myjid i, sh)
          | None => Some (Faulted, sh)
          end
      | None => Some (Faulted, sh)                (* myjob->pid with myjob NULL *)
      end
  | BfPidLookup argv0 mypid =>
      Some (BfPidCheck argv0 mypid (getjobpid (jobs sh) mypid), sh)
  | BfPidCheck argv0 mypid myjob =>
      match getjobpid (jobs sh) mypid with
      | None => Some (Prompt, eprintf "(%d): No such process\n" [D mypid] sh)
      | Some _ => Some (BfPidJid argv0 mypid myjob, sh)
      end
  | BfPidJid argv0 mypid myjob =>
      match myjob with
      | Some i =>
          match jobs sh !! i with
          | Some job => Some (BfPidState argv0 mypid (jid job) i, sh)
          | None => Some (Faulted, sh)
          end
      | None => Some (Faulted, sh)
      end
  | BfPidState argv0 mypid myjid i =>
      match jobs sh !! i with
      | Some job =>
          if state job =? FG then
            Some (Prompt, eprintf "(%d): Already in foreground\n" [D mypid] sh)
          else Some (BfDispatch argv0 mypid myjid i, sh)
      | None => Some (Faulted, sh)
      end
  | BfDispatch argv0 mypid myjid i =>
      if strncmp0 argv0 "fg" 2 then Some (BfFgStop mypid i, sh)
      else if strncmp0 argv0 "bg" 2 then Some (BfBgSet mypid myjid i, sh)
      else Some (Prompt, sh)
  | BfFgStop mypid i => Some (BfFgSet mypid i, kill (- mypid) SIGTSTP sh)
  | BfFgSet mypid i =>
      Some (BfFgCont mypid, with_jobs (alter (set_state FG) i (jobs sh)) sh)
  | BfFgCont mypid => Some (BfFgWait, kill (- mypid) SIGCONT sh)
  | BfFgWait => Some (WfLookup (fgpid (jobs sh)), sh)
  | BfBgSet mypid myjid i =>
      Some (BfBgPrint mypid myjid i,
            with_jobs (alter (set_state BG) i (jobs sh)) sh)
  | BfBgPrint mypid myjid i =>
      match jobs sh !! i with
      | Some job =>
          Some (BfBgCont mypid,
                printf "[%d] (%d) %s" [D myjid; D mypid; S_ (cmdline job)] sh)
      | None => Some (Faulted, sh)
      end
  | BfBgCont mypid => Some (Prompt, kill (- mypid) SIGCONT sh)
  | _ => None
  end.

(** The next statement of the mainline. *)
Definition tick (c : pc) (sh : shell) : option (pc * shell) :=
  match eval_tick c sh with
  | Some r => Some r
  | None =>
      match waitfg_tick c sh with
      | Some r => Some r
      | None => do_bgfg_tick c sh
      end
  end.

(** What the user types at the prompt, after [parseline] and the name
    dispatch of [builtin_cmd] (tsh.c:220-230, 347-370).  The dispatch
    compares [strncmp] results, whose values the C library leaves open;
    here any argument vector may take either route, which covers every
    outcome of that comparison. *)
Inductive command :=
| CmdBlank                                  (* argv[0] == NULL *)
| CmdQuit                                   (* quit: exit(0) *)
| CmdJobs                                   (* jobs: listjobs *)
| CmdBgfg (argv : list string)              (* bg / fg: do_bgfg(argv) *)
| CmdLaunch (cl : string) (bg : bool).      (* any other command *)

(** The moves of the environment and of the mainline.  [e] in [LCommand]
    is the errno left by the library calls of the read loop. *)
Inductive label :=
| LEof                                      (* feof(stdin): exit(0) *)
| LStdinError                               (* fgets fails: app_error *)
| LCommand (cmd : command) (e : Z)
| LFork (p : Z)                             (* fork returns p > 0 *)
| LForkFail (e : Z) (text : string)         (* fork returns < 0; strerror(e) *)
| LTick                                     (* the mainline's next statement *)
| LSigchld (k : kernel)
| LSigint
| LSigtstp
| LSigquit.

Record machine := mkmachine { ctl : pc; sh : shell }.

Definition terminal (c : pc) : bool :=
  match c with Halted _ | Faulted => true | _ => false end.

(** A handler runs when its signal is not blocked; when it returns, the
    kernel reinstates the signal mask of the interrupted context. *)
Definition deliver (sig : Z) (m : machine) : bool :=
  negb (terminal (ctl m)) && negb (sigismember (sigmask (sh m)) sig).

Definition step (l : label) (m : machine) : option machine :=
  let '(mkmachine c s) := m in
  match l with
  | LEof => match c with Prompt => Some (mkmachine (Halted 0) s) | _ => None end
  | LStdinError =>
      match c with
      | Prompt => Some (mkmachine (Halted 1) (printf "%s\n" [S_ "fgets error"] s))
      | _ => None
      end
  | LCommand cmd e =>
      match c with
      | Prompt =>
          let s := with_errno e s in
          match cmd with
          | CmdBlank => Some (mkmachine Prompt s)
          | CmdQuit => Some (mkmachine (Halted 0) s)
          | CmdJobs => Some (mkmachine Prompt (listjobs (jobs s) s))
          | CmdBgfg argv => Some (mkmachine (BfStart argv) s)
          | CmdLaunch cl bg => Some (mkmachine (EvBlock cl (negb bg)) s)
          end
      | _ => None
      end
  | LFork p =>
      match c with
      | EvFork cl fginit prev =>
          (* the new child's pid is positive and is not the pid of a child
             that has not been reaped yet *)
          match getjobpid (jobs s) p with
          | None => if 0 <? p then Some (mkmachine (EvAdd cl fginit prev p) s)
                    else None
          | Some _ => None
          end
      | _ => None
      end
  | LForkFail e text =>
      match c with
      | EvFork _ _ _ =>
          (* unix_error("Fork Failed\n") *)
          Some (mkmachine (Halted 1)
                  (printf "%s: %s\n" [S_ (String.append "Fork Failed" nl); S_ text]
                          (with_errno e s)))
      | _ => None
      end
  | LTick =>
      match tick c s with
      | Some (c', s') => Some (mkmachine c' s')
      | None => None
      end
  | LSigchld k =>
      if deliver SIGCHLD m then
        match sigchld_handler k s with
        | Ret (_, s') => Some (mkmachine c (with_sigmask (sigmask s) s'))
        | Fault => Some (mkmachine Faulted s)
        end
      else None
  | LSigint =>
      if deliver SIGINT m
      then Some (mkmachine c (sigint_handler SIGINT s)) else None
  | LSigtstp =>
      if deliver SIGTSTP m
      then Some (mkmachine c (sigtstp_handler SIGTSTP s)) else None
  | LSigquit =>
      (* sigquit_handler (tsh.c:852-856) *)
      if deliver SIGQUIT m
      then Some (mkmachine (Halted 1)
                   (printf "Terminating after receipt of SIGQUIT signal\n" [] s))
      else None
  end.

Fixpoint exec (ls : list label) (m : machine) : option machine :=
  match ls with
  | [] => Some m
  | l :: ls' =>
      match step l m with
      | Some m' => exec ls' m'
      | None => None
      end
  end.

(** The machine when [main] enters the loop; [v] is the -v option. *)
Definition boot (v : Z) : machine := mkmachine Prompt (shell0 v).

Inductive reachable : machine → Prop :=
| reach_boot v : reachable (boot v)
| reach_step l m m' : reachable m → step l m = Some m' → reachable m'.

(** ** From the line to the command (tsh.c:220-230, 347-370) *)

Inductive builtin := BQuit | BJobs | BBgfg | BNone.

(** The name tests of [builtin_cmd].  [strncmp] is the C library's, which
    fixes only the sign of a result that is not 0. *)
Definition builtin_cmd (strncmp : string → string → nat → Z)
    (argv0 : string) : builtin :=
  if strncmp argv0 "quit" 4%nat =? 0 then BQuit
  else if strncmp argv0 "jobs" 4%nat =? 0 then BJobs
  else if Z.land (strncmp argv0 "bg" 2%nat) (strncmp argv0 "fg" 2%nat) =? 0
       then BBgfg
  else BNone.

(** What [eval] makes of a line up to the call of [fork]. *)
Definition eval_command (strncmp : string → string → nat → Z)
    (cmdline : string) : outcome command :=
  match parseline cmdline with
  | Fault => Fault
  | Ret (argv, parse_result) =>
      match argv with
      | [] => Ret CmdBlank
      | argv0 :: _ =>
          match builtin_cmd strncmp argv0 with
          | BQuit => Ret CmdQuit
          | BJobs => Ret CmdJobs
          | BBgfg => Ret (CmdBgfg argv)
          | BNone => Ret (CmdLaunch cmdline (parse_result =? 1))
          end
      end
  end.

(** * Specification vocabulary *)

(** ** Job-list operations in sequence *)

(** A sequence of job-list operations, as the mainline and the handler
    issue them. *)
Inductive jobop :=
| Add (p st : Z) (cl : string)
| Del (p : Z).

Definition run_op (sh : shell) (op : jobop) : shell :=
  match op with
  | Add p st cl => snd (addjob sh p st cl)
  | Del p => snd (deletejob sh p)
  end.

Definition run_ops (ops : list jobop) (sh : shell) : shell :=
  fold_left run_op ops sh.

(** The jid a successful [addjob] of [p] hands out is above every live jid. *)
Definition jid_above_live (sh : shell) (p st : Z) (cl : string) : Prop :=
  fst (addjob sh p st cl) = 1 →
  ∀ k job, jobs sh !! k = Some job → pid job ≠ 0 →
           jid job < pid2jid (jobs (snd (addjob sh p st cl))) p.

(** Jobs with jid 1, 2, 3. *)
Definition three_jobs : shell :=
  run_ops [Add 11 BG "sleep 10 &"; Add 12 BG "sleep 20 &"; Add 13 BG "sleep 30 &"]
          (shell0 0).

(** Sixteen launches fill the list; two jobs end; two more launches. *)
Definition sixteen_jobs : list jobop :=
  (fun p => Add p BG "sleep 100 &") <$> seqZ 101 16.

Definition wrapped : shell :=
  run_ops (sixteen_jobs ++ [Del 101; Del 102; Add 117 BG "sleep 100 &"]) (shell0 0).

(** ** Foreground jobs *)

Definition no_fg (l : list job_t) : Prop :=
  ∀ i job, l !! i = Some job → state job ≠ FG.

Definition at_most_one_fg (l : list job_t) : Prop :=
  ∀ i1 i2 job1 job2,
    l !! i1 = Some job1 → l !! i2 = Some job2 →
    state job1 = FG → state job2 = FG → i1 = i2.

(** Only slot [k] can be in the foreground. *)
Definition fg_within (k : nat) (l : list job_t) : Prop :=
  ∀ i job, l !! i = Some job → state job = FG → i = k.

(** A foreground slot holds pid [p]. *)
Definition fg_pid (p : Z) (l : list job_t) : Prop :=
  ∀ i job, l !! i = Some job → state job = FG → pid job = p.

Definition absent (p : Z) (l : list job_t) : Prop :=
  ∀ i job, l !! i = Some job → pid job ≠ p.

Definition uniq_pid (p : Z) (l : list job_t) : Prop :=
  ∀ i1 i2 job1 job2,
    l !! i1 = Some job1 → l !! i2 = Some job2 →
    pid job1 = p → pid job2 = p → i1 = i2.

Definition full (l : list job_t) : Prop :=
  scan (fun job => pid job =? 0) l = None.

(** What a run of the SIGCHLD handler may do to the list: a slot that is
    in the foreground afterwards has not been written, and a slot that
    holds a pid afterwards held it before. *)
Definition shrinks (l l' : list job_t) : Prop :=
  ∀ i job', l' !! i = Some job' →
    ∃ job, l !! i = Some job ∧
           (state job' = FG → job' = job) ∧
           (pid job' ≠ 0 → pid job' = pid job).

(** The invariant of the mainline that keeps at most one job in the
    foreground, program point by program point. *)
Definition fg_inv (m : machine) : Prop :=
  let l := jobs (sh m) in
  at_most_one_fg l ∧
  match ctl m with
  | Halted _ | Faulted | BfFgCont _ | BfFgWait => True
  | EvAdd _ _ _ p => no_fg l ∧ 0 < p ∧ absent p l
  | EvRestore _ p | EvLookup p => 0 < p ∧ uniq_pid p l ∧ fg_pid p l
  | EvBranch p i _ => fg_within i l ∧ fg_pid p l
  | WfLookup p => fg_pid p l
  | WfCheck p _ | WfLoop p _ => 0 < p ∧ fg_pid p l
  | _ => no_fg l
  end.

(** The signal mask along a launch: SIGCHLD is blocked from the fork to
    the restore, and nothing is blocked elsewhere; when the mask is about
    to be restored the child is in the list, unless the list was full. *)
Definition mask_inv (m : machine) : Prop :=
  let s := sh m in
  match ctl m with
  | Halted _ | Faulted => True
  | EvFork _ _ prev => prev = sigemptyset ∧ sigmask s = chld_block
  | EvAdd _ _ prev p => prev = sigemptyset ∧ sigmask s = chld_block ∧ 0 < p
  | EvRestore prev p =>
      prev = sigemptyset ∧ sigmask s = chld_block ∧
      (is_Some (getjobpid (jobs s) p) ∨ full (jobs s))
  | _ => sigmask s = sigemptyset
  end.

(** No SIGCHLD handler can run in [m]. *)
Definition sigchld_blocked (m : machine) : Prop :=
  ∀ k, step (LSigchld k) m = None.

(** The launch protocol of [eval], program point by program point.
    - At the block: the next statement saves the current mask and no
      SIGCHLD handler can run after it.
    - At the fork: no SIGCHLD handler can run.
    - At [addjob]: no SIGCHLD handler can run; the next statement is
      [addjob], and from there until the statement that restores the mask,
      whatever signals arrive ([ls] holds no statement of the mainline),
      the shell is still about to restore the saved mask or has exited, no
      SIGCHLD handler can run, and the child is in the job list provided
      the list had a free slot when [addjob] ran.
    - At the restore: no SIGCHLD handler can run, and the next statement
      puts back the saved mask and leaves the list as it is. *)
Definition launch_protocol (m : machine) : Prop :=
  match ctl m with
  | EvBlock cl fginit =>
      ∃ m1, step LTick m = Some m1 ∧
            ctl m1 = EvFork cl fginit (sigmask (sh m)) ∧ sigchld_blocked m1
  | EvFork _ _ _ => sigchld_blocked m
  | EvAdd _ _ prev p =>
      sigchld_blocked m ∧
      ∃ m1, step LTick m = Some m1 ∧ ctl m1 = EvRestore prev p ∧
            ∀ ls m2, LTick ∉ ls → exec ls m1 = Some m2 →
              (ctl m2 = EvRestore prev p ∨ ∃ code, ctl m2 = Halted code) ∧
              sigchld_blocked m2 ∧
              (¬ full (jobs (sh m)) → is_Some (getjobpid (jobs (sh m2)) p))
  | EvRestore prev p =>
      sigchld_blocked m ∧
      ∃ m1, step LTick m = Some m1 ∧ ctl m1 = EvLookup p ∧
            sigmask (sh m1) = prev ∧ jobs (sh m1) = jobs (sh m)
  | _ => True
  end.

(** C2 as stated: whenever [eval] is about to restore the mask, the child
    is in the job list. *)
Definition registered_before_unblock : Prop :=
  ∀ m prev p, reachable m → ctl m = EvRestore prev p →
              is_Some (getjobpid (jobs (sh m)) p).

(** ** Scripts of machine moves *)

(** Wait statuses as Linux encodes them: exit(0), killed by SIGINT,
    stopped by SIGTSTP. *)
Definition W_EXIT0 : Z := 0.
Definition W_KILLED_INT : Z := 2.
Definition W_STOPPED_TSTP : Z := 5247.      (* (20 << 8) | 0x7f *)

(** A background launch that runs undisturbed to the next prompt: the
    command, the block, the fork, addjob, the restore, the lookup, the
    state test and the report. *)
Definition launch_bg (cl : string) (p : Z) : list label :=
  [LCommand (CmdLaunch cl true) 0; LTick; LFork p; LTick; LTick; LTick; LTick; LTick].

(** A launch up to the point where the mask is about to be restored. *)
Definition launch_to_restore (cl : string) (bg : bool) (p : Z) : list label :=
  [LCommand (CmdLaunch cl bg) 0; LTick; LFork p; LTick].

(** Sixteen background jobs with the pids 101 to 116. *)
Definition fill_table : list label :=
  mjoin ((fun p => launch_bg "sleep 100 &" p) <$> seqZ 101 16).

(** Fifteen background jobs with the pids 101 to 115, and a sixteenth
    launch up to the point where [addjob] is about to run: one slot is
    free. *)
Definition last_slot_launch : list label :=
  mjoin ((fun p => launch_bg "sleep 100 &" p) <$> seqZ 101 15)
  ++ [LCommand (CmdLaunch "sleep 100 &" true) 0; LTick; LFork 116].

Definition ticks (n : nat) : list label := replicate n LTick.

(** The machine after the moves [ls] from the start. *)
Definition after (ls : list label) : machine :=
  default (boot 0) (exec ls (boot 0)).

(** A foreground launch of pid 5 up to the polling loop of waitfg. *)
Definition launch_fg_waiting : list label :=
  [LCommand (CmdLaunch "sleep 10" false) 0; LTick; LFork 5] ++ ticks 6.

(** Three background jobs 11, 12, 13 (jid 1, 2, 3), then job 12 ends and
    is reaped: the live jids are 1 and 3. *)
Definition gap_in_jids : list label :=
  launch_bg "sleep 10 &" 11 ++ launch_bg "sleep 20 &" 12 ++ launch_bg "sleep 30 &" 13
  ++ [LSigchld (mkkernel [(12, W_EXIT0)] false)].

(** A foreground launch of pid 5 whose child ends, and is reaped, just
    before eval calls waitfg. *)
Definition fg_child_gone : list label :=
  [LCommand (CmdLaunch "sleep 0" false) 0; LTick; LFork 5] ++ ticks 4
  ++ [LSigchld (mkkernel [(5, W_EXIT0)] true)].

(** The mainline running undisturbed for at most [n] statements. *)
Fixpoint mainline (n : nat) (c : pc) (s : shell) : pc * shell :=
  match n with
  | O => (c, s)
  | S n' =>
      match tick c s with
      | Some (c', s') => mainline n' c' s'
      | None => (c, s)
      end
  end.

(** ** Well-formed job lists *)

(** A slot is free (pid 0, and then its jid is 0) or holds a job with a
    positive pid, a positive jid and one of the three job states. *)
Definition wf_job (job : job_t) : Prop :=
  0 ≤ pid job ∧
  (pid job = 0 → jid job = 0) ∧
  (0 < pid job →
   0 < jid job ∧ (state job = FG ∨ state job = BG ∨ state job = ST)).

(** No two slots hold the same process. *)
Definition distinct_pids (l : list job_t) : Prop :=
  ∀ i1 i2 job1 job2,
    l !! i1 = Some job1 → l !! i2 = Some job2 →
    pid job1 = pid job2 → pid job1 ≠ 0 → i1 = i2.

Definition wf_shell (s : shell) : Prop :=
  length (jobs s) = Z.to_nat MAXJOBS ∧
  1 ≤ nextjid s ∧
  (∀ i job, jobs s !! i = Some job → wf_job job) ∧
  distinct_pids (jobs s).

(** What [listjobs] prints for a job that is running in the background or
    stopped. *)
Definition job_lines (job : job_t) : list event :=
  [Stdout (sprintf "[%d] (%d) " [D (jid job); D (pid job)]);
   Stdout (if state job =? BG then "Running " else "Stopped ");
   Stdout (sprintf "%s" [S_ (cmdline job)])].

(** The program points between the fork and the restore of the mask. *)
Definition in_launch_window (c : pc) : bool :=
  match c with
  | EvFork _ _ _ | EvAdd _ _ _ _ | EvRestore _ _ => true
  | _ => false
  end.

(** ** Command lines *)

(** A word of a command line: plain, or enclosed in single quotes. *)
Inductive word :=
| Plain (w : string)
| Quoted (w : string).

Definition text (x : word) : string :=
  match x with Plain w | Quoted w => w end.

Definition render (x : word) : string :=
  match x with
  | Plain w => w
  | Quoted w => String "'" (w +:+ String "'" EmptyString)
  end.

Fixpoint has_char (c : ascii) (s : string) : bool :=
  match s with
  | EmptyString => false
  | String a r => Ascii.eqb a c || has_char c r
  end.

(** A plain word is not empty, holds no blank and does not begin with a
    quote; a quoted word holds no quote. *)
Definition word_ok (x : word) : bool :=
  match x with
  | Plain w =>
      match w with
      | EmptyString => false
      | String a _ => negb (Ascii.eqb a "'") && negb (has_char " " w)
      end
  | Quoted w => negb (has_char "'" w)
  end.

Fixpoint blanks (n : nat) : string :=
  match n with
  | O => EmptyString
  | S n' => String " " (blanks n')
  end.

(** Words, each followed by a number of blanks, with one more blank
    between two words. *)
Fixpoint words (xs : list (word * nat)) : string :=
  match xs with
  | [] => EmptyString
  | (x, k) :: rest =>
      render x +:+ blanks k +:+
      match rest with
      | [] => EmptyString
      | _ :: _ => String " " (words rest)
      end
  end.

(** The line: [lead] blanks, the words, and a last character [c] (the
    newline that [fgets] stores, as a rule). *)
Definition line (lead : nat) (xs : list (word * nat)) (c : ascii) : string :=
  blanks lead +:+ words xs +:+ String c EmptyString.

(** The same words with a blank where a word ends. *)
Fixpoint spaced (xs : list (word * nat)) : string :=
  match xs with
  | [] => EmptyString
  | (x, k) :: rest => render x +:+ blanks k +:+ String " " (spaced rest)
  end.

Definition texts (xs : list (word * nat)) : list string :=
  (λ xk, text xk.1) <$> xs.

Definition words_ok (xs : list (word * nat)) : Prop :=
  Forall (λ xk, word_ok xk.1 = true) xs.

(** [*arg == '&']. *)
Definition ampersand (a : string) : bool :=
  match a with
  | String c _ => Ascii.eqb c "&"
  | EmptyString => false
  end.

(** What the C standard fixes of [strncmp] on the four names that
    [builtin_cmd] tests: the result is 0 exactly when the first [n]
    characters agree. *)
Definition strncmp_agrees (strncmp : string → string → nat → Z)
    (w : string) : Prop :=
  (strncmp w "quit" 4%nat = 0 ↔ strncmp0 w "quit" 4 = true) ∧
  (strncmp w "jobs" 4%nat = 0 ↔ strncmp0 w "jobs" 4 = true) ∧
  (strncmp w "bg" 2%nat = 0 ↔ strncmp0 w "bg" 2 = true) ∧
  (strncmp w "fg" 2%nat = 0 ↔ strncmp0 w "fg" 2 = true).

(** A [strncmp] that returns the difference of the first two bytes that
    differ. *)
Fixpoint strncmp_bytes (s1 s2 : string) (n : nat) {struct n} : Z :=
  match n with
  | O => 0
  | S n' =>
      match s1, s2 with
      | EmptyString, EmptyString => 0
      | String c1 r1, String c2 r2 =>
          if Ascii.eqb c1 c2 then strncmp_bytes r1 r2 n'
          else Z.of_nat (nat_of_ascii c1) - Z.of_nat (nat_of_ascii c2)
      | EmptyString, String c2 _ => - Z.of_nat (nat_of_ascii c2)
      | String c1 _, EmptyString => Z.of_nat (nat_of_ascii c1)
      end
  end.

(** * Properties *)

(** A statement of the mainline has been executed: name the new program
    point and globals. *)
Ltac ticked := intros [= <- <-]; simpl.

(** ** The scans of the job list *)

Lemma scan_Some test (l : list job_t) i :
  scan test l = Some i ↔
  ∃ job, l !! i = Some job ∧ test job = true ∧
         ∀ k job', (k < i)%nat → l !! k = Some job' → test job' = false.
Proof.
  revert i. induction l as [|a l IH]; intros i; simpl.
  - split; [discriminate | intros (job & H & _); discriminate].
  - destruct (test a) eqn:Ha.
    + split.
      * intros [= <-]. exists a. repeat split; auto. intros k job' Hk. lia.
      * intros (job & Hi & Ht & Hlt). destruct i as [|i]; [done|].
        specialize (Hlt 0%nat a). simpl in Hlt.
        rewrite Hlt in Ha; [discriminate | lia | done].
    + rewrite fmap_Some. split.
      * intros (i' & Hs & ->). apply IH in Hs as (job & Hi & Ht & Hlt).
        exists job. repeat split; auto.
        intros [|k] job' Hk Hk'; simpl in Hk'; [congruence|].
        apply (Hlt k); [lia | done].
      * intros (job & Hi & Ht & Hlt). destruct i as [|i].
        -- simpl in Hi. congruence.
        -- exists i. split; [|done]. apply IH. exists job. repeat split; auto.
           intros k job' Hk Hk'. apply (Hlt (S k)); [lia | done].
Qed.

Lemma scan_None test (l : list job_t) :
  scan test l = None ↔ ∀ k job, l !! k = Some job → test job = false.
Proof.
  induction l as [|a l IH]; simpl.
  - split; [intros _ k job H; discriminate | done].
  - destruct (test a) eqn:Ha.
    + split; [discriminate|]. intros H. specialize (H 0%nat a eq_refl). congruence.
    + rewrite fmap_None, IH. split.
      * intros H [|k] job Hk; simpl in Hk; [congruence|]. by apply (H k).
      * intros H k job Hk. by apply (H (S k)).
Qed.

Lemma scan_lt test (l : list job_t) i : scan test l = Some i → (i < length l)%nat.
Proof.
  intros (job & H & _)%scan_Some. by apply lookup_lt_Some in H.
Qed.

(** ** addjob *)

Lemma addjob_success sh p st cl :
  fst (addjob sh p st cl) = 1 ↔
  1 ≤ p ∧ ∃ k job, jobs sh !! k = Some job ∧ pid job = 0.
Proof.
  unfold addjob. destruct (Z.ltb_spec p 1); simpl.
  - split; [discriminate | lia].
  - destruct (scan _ (jobs sh)) as [i|] eqn:Hs; simpl.
    + split; [intros _ | done]. split; [done|].
      apply scan_Some in Hs as (job & Hi & Ht & _).
      exists i, job. split; [done | lia].
    + split; [discriminate|]. intros (_ & k & job & Hk & Hp).
      rewrite scan_None in Hs. specialize (Hs k job Hk). simpl in Hs. lia.
Qed.

Lemma addjob_Some sh p st cl i :
  1 ≤ p → scan (fun job => pid job =? 0) (jobs sh) = Some i →
  fst (addjob sh p st cl) = 1 ∧
  jobs (snd (addjob sh p st cl)) = <[i := mkjob p (nextjid sh) st cl]> (jobs sh) ∧
  nextjid (snd (addjob sh p st cl))
    = (if nextjid sh + 1 >? MAXJOBS then 1 else nextjid sh + 1).
Proof.
  intros Hp Hs. unfold addjob. destruct (Z.ltb_spec p 1); [lia|].
  rewrite Hs. simpl. by destruct (verbose sh =? 0).
Qed.

Lemma addjob_success_inv sh p st cl :
  fst (addjob sh p st cl) = 1 →
  1 ≤ p ∧ ∃ i, scan (fun job => pid job =? 0) (jobs sh) = Some i.
Proof.
  unfold addjob. destruct (Z.ltb_spec p 1); simpl; [discriminate|].
  destruct (scan _ (jobs sh)) as [i|]; simpl; [eauto | discriminate].
Qed.

(** C10.  A successful [addjob] writes exactly one slot: the first one, in
    index order, whose pid is 0.  That slot receives the given pid and
    state, the value of [nextjid] and the command line; every other slot,
    and the length of the list, is as before. *)
Theorem addjob_frame sh p st cl :
  fst (addjob sh p st cl) = 1 →
  ∃ i old,
    jobs sh !! i = Some old ∧ pid old = 0 ∧
    (∀ k job, (k < i)%nat → jobs sh !! k = Some job → pid job ≠ 0) ∧
    jobs (snd (addjob sh p st cl)) !! i = Some (mkjob p (nextjid sh) st cl) ∧
    jobs (snd (addjob sh p st cl)) !! i ≠ jobs sh !! i ∧
    (∀ k, k ≠ i → jobs (snd (addjob sh p st cl)) !! k = jobs sh !! k) ∧
    length (jobs (snd (addjob sh p st cl))) = length (jobs sh).
Proof.
  intros (Hp & i & Hs)%addjob_success_inv.
  destruct (addjob_Some sh p st cl i Hp Hs) as (_ & -> & _).
  pose proof (scan_lt _ _ _ Hs) as Hlt.
  apply scan_Some in Hs as (old & Hi & Ht & Hfirst).
  assert (pid old = 0) as Hold by lia.
  exists i, old. split_and!; auto.
  - intros k job Hk Hjob. specialize (Hfirst k job Hk Hjob). simpl in Hfirst. lia.
  - by apply list_lookup_insert_eq.
  - rewrite list_lookup_insert_eq by done. rewrite Hi. intros [= E].
    rewrite <- E in Hold. simpl in Hold. lia.
  - intros k Hk. by apply list_lookup_insert_ne.
  - apply length_insert.
Qed.

(** The first launch of a session: slot 0 of the fresh list is written. *)
Lemma addjob_frame_witness :
  ∃ i old,
    jobs (shell0 0) !! i = Some old ∧ pid old = 0 ∧
    (∀ k job, (k < i)%nat → jobs (shell0 0) !! k = Some job → pid job ≠ 0) ∧
    jobs (snd (addjob (shell0 0) 5 BG "sleep 100 &")) !! i
      = Some (mkjob 5 (nextjid (shell0 0)) BG "sleep 100 &") ∧
    jobs (snd (addjob (shell0 0) 5 BG "sleep 100 &")) !! i ≠ jobs (shell0 0) !! i ∧
    (∀ k, k ≠ i → jobs (snd (addjob (shell0 0) 5 BG "sleep 100 &")) !! k
                  = jobs (shell0 0) !! k) ∧
    length (jobs (snd (addjob (shell0 0) 5 BG "sleep 100 &"))) = length (jobs (shell0 0)).
Proof. apply (addjob_frame (shell0 0) 5 BG "sleep 100 &"). reflexivity. Defined.

(** ** jid allocation *)

Lemma maxjid_fold_ge (l : list job_t) a :
  a ≤ fold_left (fun max job => if jid job >? max then jid job else max) l a.
Proof.
  revert a. induction l as [|x l IH]; intros a; simpl; [lia|].
  etrans; [|apply IH]. destruct (Z.gtb_spec (jid x) a); lia.
Qed.

Lemma maxjid_fold_elem (l : list job_t) a k job :
  l !! k = Some job →
  jid job ≤ fold_left (fun max job => if jid job >? max then jid job else max) l a.
Proof.
  revert a k. induction l as [|x l IH]; intros a k; [done|].
  destruct k as [|k]; simpl.
  - intros [= ->]. etrans; [|apply maxjid_fold_ge].
    destruct (Z.gtb_spec (jid job) a); lia.
  - apply IH.
Qed.

Lemma maxjid_ge (l : list job_t) k job : l !! k = Some job → jid job ≤ maxjid l.
Proof. apply maxjid_fold_elem. Qed.

Lemma deletejob_Some sh p i :
  1 ≤ p → scan (fun job => pid job =? p) (jobs sh) = Some i →
  deletejob sh p
  = (1, with_nextjid (maxjid (alter clearjob i (jobs sh)) + 1)
          (with_jobs (alter clearjob i (jobs sh)) sh)).
Proof.
  intros Hp Hs. unfold deletejob. destruct (Z.ltb_spec p 1); [lia|]. by rewrite Hs.
Qed.

Lemma deletejob_success_inv sh p :
  fst (deletejob sh p) = 1 →
  1 ≤ p ∧ ∃ i, scan (fun job => pid job =? p) (jobs sh) = Some i.
Proof.
  unfold deletejob. destruct (Z.ltb_spec p 1); simpl; [discriminate|].
  destruct (scan _ (jobs sh)) as [i|]; simpl; [eauto | discriminate].
Qed.

Example three_jobs_remove_2 :
  pid2jid (jobs (run_ops [Del 12; Add 14 BG "sleep 40 &"] three_jobs)) 14 = 4.
Proof. reflexivity. Qed.

Example three_jobs_remove_2_3 :
  pid2jid (jobs (run_ops [Del 12; Del 13; Add 14 BG "sleep 40 &"] three_jobs)) 14 = 2.
Proof. reflexivity. Qed.

(** C7, as stated, fails twice.  With jobs 1, 2, 3, once the jobs 2 and 3
    are both removed the next add assigns jid 2 (max live jid + 1), not 3.
    And after sixteen launches, two removals and one launch, [nextjid] has
    been reset to 1 by the guard of [addjob] although fourteen jobs are
    live: the next add assigns jid 1, below the live jid 17. *)
Lemma jid_allocation_counterexample :
  pid2jid (jobs (run_ops [Del 12; Del 13; Add 14 BG "sleep 40 &"] three_jobs)) 14 ≠ 3 ∧
  ¬ jid_above_live wrapped 118 BG "sleep 100 &".
Proof.
  split; [by vm_compute|].
  intros H. specialize (H eq_refl 0%nat (mkjob 117 17 BG "sleep 100 &") eq_refl).
  vm_compute in H. by specialize (H ltac:(discriminate)).
Qed.

Lemma maxjid_fold_attained (l : list job_t) a :
  let r := fold_left (fun max job => if jid job >? max then jid job else max) l a in
  r = a ∨ ∃ k job, l !! k = Some job ∧ jid job = r.
Proof.
  revert a. induction l as [|x l IH]; intros a; simpl; [by left|].
  destruct (IH (if jid x >? a then jid x else a)) as [Hr | (k & job & Hk & Hj)].
  - destruct (Z.gtb_spec (jid x) a).
    + right. exists 0%nat, x. by rewrite Hr.
    + by left.
  - right. by exists (S k), job.
Qed.

Lemma maxjid_insert_le (l : list job_t) i new b :
  maxjid l ≤ b → jid new ≤ b → maxjid (<[i := new]> l) ≤ b.
Proof.
  intros Hl Hnew. pose proof (maxjid_fold_ge l 0) as H0. fold (maxjid l) in H0.
  destruct (maxjid_fold_attained (<[i := new]> l) 0) as [Hr | (k & job & Hk & Hj)];
    fold (maxjid (<[i := new]> l)) in *; [lia|].
  rewrite <- Hj.
  apply list_lookup_insert_Some in Hk as [(_ & <- & _) | (_ & Hk)]; [done|].
  apply maxjid_ge in Hk. lia.
Qed.

(** C7, amended.  A successful [deletejob] leaves [nextjid] at
    [maxjid(jobs) + 1].  Every successful [addjob] fills a slot with the
    jid [nextjid] and moves [nextjid] one further, or back to 1 when that
    exceeds [MAXJOBS].  Whenever [nextjid] is above [maxjid(jobs)], the jid
    handed out is above the jid of every slot, and [nextjid] is above
    [maxjid(jobs)] again after the add unless the add has reset it to 1.
    [nextjid] is above [maxjid(jobs)] when the shell starts. *)
Theorem jid_allocation_rule sh :
  (∀ p, fst (deletejob sh p) = 1 →
        nextjid (snd (deletejob sh p))
        = maxjid (jobs (snd (deletejob sh p))) + 1) ∧
  (∀ q st cl, fst (addjob sh q st cl) = 1 →
     let sh' := snd (addjob sh q st cl) in
     (∃ i, jobs sh' !! i = Some (mkjob q (nextjid sh) st cl)) ∧
     nextjid sh' = (if nextjid sh + 1 >? MAXJOBS then 1 else nextjid sh + 1) ∧
     (maxjid (jobs sh) < nextjid sh →
      (∀ k job, jobs sh !! k = Some job → jid job < nextjid sh) ∧
      (nextjid sh + 1 ≤ MAXJOBS → maxjid (jobs sh') < nextjid sh'))) ∧
  (∀ v, maxjid (jobs (shell0 v)) < nextjid (shell0 v)).
Proof.
  split_and!.
  - intros p (Hp & i & Hi)%deletejob_success_inv.
    by rewrite (deletejob_Some sh p i Hp Hi).
  - intros q st cl (Hq & j & Hj)%addjob_success_inv.
    edestruct addjob_Some as (_ & Hjobs & Hnext); [done.. |].
    simpl. rewrite Hjobs, Hnext. split_and!; [| done |].
    + exists j. apply list_lookup_insert_eq. by apply scan_lt in Hj.
    + intros Habove. split.
      * intros k job Hk. apply maxjid_ge in Hk. lia.
      * intros Hcap. destruct (Z.gtb_spec (nextjid sh + 1) MAXJOBS); [lia|].
        pose proof (maxjid_insert_le (jobs sh) j (mkjob q (nextjid sh) st cl)
                      (nextjid sh)) as H'.
        simpl in H'. lia.
  - intros v. by vm_compute.
Qed.

(** With jobs 1, 2, 3, removing job 2 makes the next jid 4, above the live
    jids 1 and 3, and the jid after that 5. *)
Lemma jid_allocation_rule_witness :
  let sh1 := snd (deletejob three_jobs 12) in
  let sh2 := snd (addjob sh1 14 BG "sleep 40 &") in
  nextjid sh1 = maxjid (jobs sh1) + 1 ∧
  (∃ i, jobs sh2 !! i = Some (mkjob 14 4 BG "sleep 40 &")) ∧
  nextjid sh2 = 5 ∧
  (∀ k job, jobs sh1 !! k = Some job → jid job < 4) ∧
  maxjid (jobs sh2) < nextjid sh2.
Proof.
  intros sh1 sh2.
  destruct (jid_allocation_rule three_jobs) as (Hdel & _ & _).
  destruct (jid_allocation_rule sh1) as (_ & Hadd & _).
  destruct (Hadd 14 BG "sleep 40 &" eq_refl) as (Hslot & Hnext & Habove).
  destruct Habove as [Hlive Hkeep]; [by vm_compute|].
  split_and!.
  - apply (Hdel 12). reflexivity.
  - exact Hslot.
  - exact Hnext.
  - exact Hlive.
  - apply Hkeep. by vm_compute.
Defined.

(** ** The SIGCHLD handler *)

(** Whatever the loop body does, it ends in [return]. *)
Lemma chld_body_returns p status sh : ∀ sh', chld_body p status sh ≠ Continue sh'.
Proof.
  intros sh'. unfold chld_body. destruct (getjobpid _ _); [|done].
  destruct (_ =? _); [done|]. by destruct (WIFSTOPPED _).
Qed.

(** So one run of the handler reaps at most one child, and when it has
    reaped one it returns with the three signals still blocked. *)
Lemma sigchld_handler_reaps p status rest none sh k' sh' :
  0 < p →
  sigchld_handler (mkkernel ((p, status) :: rest) none) sh = Ret (k', sh') →
  waitable k' = rest ∧ sigmask sh' = Z.lor (sigmask sh) intr_set.
Proof.
  intros Hp. unfold sigchld_handler. simpl.
  destruct (Z.gtb_spec p 0); [|lia].
  unfold chld_body. simpl. destruct (getjobpid _ _); [|done].
  unfold deletejob.
  repeat (match goal with |- context [if ?b then _ else _] => destruct b end;
          simpl; try done);
    repeat (match goal with |- context [match ?o with Some _ => _ | None => _ end] =>
              destruct o end; simpl; try done);
    by intros [= <- <-].
Qed.

(** With nothing to reap, the handler restores errno and the mask. *)
Lemma sigchld_handler_idle none sh :
  ∃ sh', sigchld_handler (mkkernel [] none) sh = Ret (mkkernel [] none, sh') ∧
         sigmask sh' = sigmask sh ∧ errno sh' = errno sh ∧ jobs sh' = jobs sh.
Proof. unfold sigchld_handler. simpl. eexists. split; [done|]. by destruct none. Qed.

(** C3 fails on the code.  With the children 11 and 12 both terminated
    when the handler starts, it reaps 11 only and returns: 12 is still
    waitable and still in the job list. *)
Theorem sigchld_handler_leaves_child_unreaped :
  ∃ sh', sigchld_handler (mkkernel [(11, W_EXIT0); (12, W_EXIT0)] false) three_jobs
         = Ret (mkkernel [(12, W_EXIT0)] false, sh') ∧
         getjobpid (jobs sh') 11 = None ∧
         jobs sh' !! 1%nat = Some (mkjob 12 2 BG "sleep 20 &").
Proof. eexists. split; [reflexivity|]. split; reflexivity. Qed.

(** C4 fails on the code.  Entered with no signal blocked, the handler
    returns with SIGCHLD, SIGINT and SIGTSTP blocked whenever it has
    processed a status change, of any of the three kinds. *)
Theorem sigchld_handler_mask_not_restored :
  sigmask three_jobs = sigemptyset ∧
  Forall (fun status =>
    ∃ k' sh', sigchld_handler (mkkernel [(11, status)] false) three_jobs
              = Ret (k', sh') ∧
              sigmask sh' = intr_set ∧ sigmask sh' ≠ sigmask three_jobs)
    [W_KILLED_INT; W_STOPPED_TSTP; W_EXIT0].
Proof.
  split; [reflexivity|].
  repeat constructor; (do 2 eexists; split; [reflexivity|]; split; [reflexivity|done]).
Qed.

(** ** do_bgfg without a job argument *)

(** C9.  Called with an argument vector that ends after the command name,
    [do_bgfg] prints on stderr the one line
    "<name> command requires PID or %jobid argument" and returns: the job
    list and [nextjid] are as before and nothing else is printed or
    signalled. *)
Theorem do_bgfg_no_argument argv0 sh :
  ∃ sh', tick (BfStart [argv0]) sh = Some (Prompt, sh') ∧
         jobs sh' = jobs sh ∧ nextjid sh' = nextjid sh ∧
         out sh' = out sh ++
           [Stderr (String.append argv0
                      (String.append " command requires PID or %jobid argument" nl))].
Proof.
  eexists. split; [reflexivity|]. split; [done|]. split; [done|].
  reflexivity.
Qed.

(** ** At most one foreground job *)

Lemma lookup_alter_Some (f : job_t → job_t) (l : list job_t) i k y :
  alter f i l !! k = Some y →
  ∃ x, l !! k = Some x ∧ ((k = i ∧ y = f x) ∨ (k ≠ i ∧ y = x)).
Proof.
  destruct (decide (i = k)) as [->|Hne].
  - rewrite list_lookup_alter_eq, fmap_Some. intros (x & Hx & ->). eauto.
  - rewrite list_lookup_alter_ne by done. eauto.
Qed.

Lemma shrinks_refl l : shrinks l l.
Proof. intros i job Hi. eauto. Qed.

Lemma shrinks_trans l1 l2 l3 : shrinks l1 l2 → shrinks l2 l3 → shrinks l1 l3.
Proof.
  intros H12 H23 i job3 H3.
  destruct (H23 i job3 H3) as (job2 & H2 & Hs2 & Hp2).
  destruct (H12 i job2 H2) as (job1 & H1 & Hs1 & Hp1).
  exists job1. split_and!; [done | |].
  - intros Hfg. rewrite (Hs2 Hfg) in Hfg |- *. by apply Hs1.
  - intros Hne. rewrite Hp2 by done. apply Hp1. rewrite <- Hp2; done.
Qed.

Lemma shrinks_alter_ST l i : shrinks l (alter (set_state ST) i l).
Proof.
  intros k job' (x & Hx & [[-> ->] | [_ ->]])%lookup_alter_Some;
    exists x; split_and!; auto. simpl. discriminate.
Qed.

Lemma shrinks_alter_clear l i : shrinks l (alter clearjob i l).
Proof.
  intros k job' (x & Hx & [[-> ->] | [_ ->]])%lookup_alter_Some;
    exists x; split_and!; auto; simpl; done.
Qed.

Lemma deletejob_shrinks sh p : shrinks (jobs sh) (jobs (snd (deletejob sh p))).
Proof.
  unfold deletejob. destruct (p <? 1); [apply shrinks_refl|].
  destruct (scan _ _); simpl; [apply shrinks_alter_clear | apply shrinks_refl].
Qed.

Lemma chld_body_shrinks p status sh sh' :
  chld_body p status sh = Return sh' → shrinks (jobs sh) (jobs sh').
Proof.
  unfold chld_body. destruct (getjobpid _ _) as [i|]; [|done].
  destruct (_ =? _); [|destruct (WIFSTOPPED _)]; intros [= <-].
  - eapply shrinks_trans; [|apply deletejob_shrinks]. apply shrinks_alter_ST.
  - apply shrinks_alter_ST.
  - eapply shrinks_trans; [|apply deletejob_shrinks]. apply shrinks_alter_ST.
Qed.

Lemma chld_while_shrinks ws none olderrno prev sh k' sh' :
  chld_while ws none olderrno prev sh = Ret (k', sh') →
  shrinks (jobs sh) (jobs sh').
Proof.
  revert sh. induction ws as [|[p status] rest IH]; intros sh; simpl.
  - intros [= _ <-]. destruct none; apply shrinks_refl.
  - destruct (p >? 0); [|intros [= _ <-]; apply shrinks_refl].
    destruct (chld_body p status sh) as [sh1|sh1|] eqn:Hb; [| |done].
    + by apply chld_body_returns in Hb.
    + intros [= _ <-]. by apply chld_body_shrinks in Hb.
Qed.

Lemma sigchld_handler_shrinks k sh k' sh' :
  sigchld_handler k sh = Ret (k', sh') → shrinks (jobs sh) (jobs sh').
Proof. unfold sigchld_handler. intros H. by apply chld_while_shrinks in H. Qed.

(** The foreground invariants survive the handler. *)
Lemma shrinks_no_fg l l' : shrinks l l' → no_fg l → no_fg l'.
Proof.
  intros Hs H i job' Hi Hfg. destruct (Hs i job' Hi) as (job & Hj & Hst & _).
  apply (H i job Hj). by rewrite <- (Hst Hfg).
Qed.

Lemma shrinks_at_most_one_fg l l' :
  shrinks l l' → at_most_one_fg l → at_most_one_fg l'.
Proof.
  intros Hs H i1 i2 j1 j2 H1 H2 Hf1 Hf2.
  destruct (Hs i1 j1 H1) as (x1 & Hx1 & Hst1 & _).
  destruct (Hs i2 j2 H2) as (x2 & Hx2 & Hst2 & _).
  apply (H i1 i2 x1 x2); auto; [by rewrite <- (Hst1 Hf1) | by rewrite <- (Hst2 Hf2)].
Qed.

Lemma shrinks_fg_within k l l' : shrinks l l' → fg_within k l → fg_within k l'.
Proof.
  intros Hs H i job' Hi Hfg. destruct (Hs i job' Hi) as (job & Hj & Hst & _).
  apply (H i job); auto. by rewrite <- (Hst Hfg).
Qed.

Lemma shrinks_fg_pid p l l' : shrinks l l' → fg_pid p l → fg_pid p l'.
Proof.
  intros Hs H i job' Hi Hfg. destruct (Hs i job' Hi) as (job & Hj & Hst & _).
  rewrite (Hst Hfg) in Hfg |- *. by apply (H i job).
Qed.

Lemma shrinks_absent p l l' : 0 < p → shrinks l l' → absent p l → absent p l'.
Proof.
  intros Hp Hs H i job' Hi Heq. destruct (Hs i job' Hi) as (job & Hj & _ & Hpid).
  apply (H i job Hj). rewrite <- Hpid; [done | lia].
Qed.

Lemma shrinks_uniq_pid p l l' : 0 < p → shrinks l l' → uniq_pid p l → uniq_pid p l'.
Proof.
  intros Hp Hs H i1 i2 j1 j2 H1 H2 Hp1 Hp2.
  destruct (Hs i1 j1 H1) as (x1 & Hx1 & _ & Hpid1).
  destruct (Hs i2 j2 H2) as (x2 & Hx2 & _ & Hpid2).
  apply (H i1 i2 x1 x2); auto; [rewrite <- Hpid1 | rewrite <- Hpid2]; lia.
Qed.

Create HintDb handler discriminated.
#[local] Hint Resolve shrinks_no_fg shrinks_fg_within shrinks_fg_pid
  shrinks_absent shrinks_uniq_pid : handler.

Lemma no_fg_at_most_one l : no_fg l → at_most_one_fg l.
Proof. intros H i1 i2 j1 j2 H1 _ Hf _. by destruct (H i1 j1 H1). Qed.

Lemma fg_within_at_most_one k l : fg_within k l → at_most_one_fg l.
Proof.
  intros H i1 i2 j1 j2 H1 H2 Hf1 Hf2.
  by rewrite (H i1 j1 H1 Hf1), (H i2 j2 H2 Hf2).
Qed.

Lemma no_fg_fg_pid p l : no_fg l → fg_pid p l.
Proof. intros H i job Hi Hf. by destruct (H i job Hi). Qed.

Lemma scan_fg l :
  match scan (fun job => state job =? FG) l with
  | Some i => ∃ job, l !! i = Some job ∧ state job = FG ∧ fgpid l = pid job
  | None => no_fg l ∧ fgpid l = 0
  end.
Proof.
  unfold fgpid. destruct (scan _ l) as [i|] eqn:Hs.
  - apply scan_Some in Hs as (job & Hi & Ht & _). exists job.
    rewrite Hi. split_and!; [done | lia | done].
  - split; [|done]. intros i job Hi Hf. rewrite scan_None in Hs.
    specialize (Hs i job Hi). simpl in Hs. lia.
Qed.

Lemma fg_pid_other p l : fg_pid p l → fgpid l ≠ p → no_fg l.
Proof.
  intros H Hne. pose proof (scan_fg l) as Hs.
  destruct (scan _ l) as [i|]; [|by destruct Hs].
  destruct Hs as (job & Hi & Hf & Heq). destruct Hne.
  rewrite Heq. by apply (H i job).
Qed.

Lemma at_most_one_fg_pid l : at_most_one_fg l → fg_pid (fgpid l) l.
Proof.
  intros H. pose proof (scan_fg l) as Hs.
  destruct (scan _ l) as [i|]; [|by apply no_fg_fg_pid; destruct Hs].
  destruct Hs as (job & Hi & Hf & ->). intros k job' Hk Hf'.
  assert (k = i) as -> by (by apply (H k i job' job)). congruence.
Qed.

Lemma getjobpid_Some l p i :
  getjobpid l p = Some i → 0 < p ∧ ∃ job, l !! i = Some job ∧ pid job = p.
Proof.
  unfold getjobpid. destruct (Z.ltb_spec p 1); [done|].
  intros (job & Hi & Ht & _)%scan_Some. split; [lia|]. exists job. split; [done | lia].
Qed.

Lemma getjobpid_None l p : getjobpid l p = None → 0 < p → absent p l.
Proof.
  unfold getjobpid. destruct (Z.ltb_spec p 1); [lia|].
  rewrite scan_None. intros Hs _ i job Hi Heq. specialize (Hs i job Hi).
  simpl in Hs. lia.
Qed.

Lemma getjobpid_is_Some l p i job :
  0 < p → l !! i = Some job → pid job = p → is_Some (getjobpid l p).
Proof.
  intros Hp Hi Heq. unfold getjobpid. destruct (Z.ltb_spec p 1); [lia|].
  destruct (scan _ l) eqn:Hs; [done|]. rewrite scan_None in Hs.
  specialize (Hs i job Hi). simpl in Hs. lia.
Qed.

Lemma jobs_listjobs_from i js sh : jobs (listjobs_from i js sh) = jobs sh.
Proof.
  revert i sh. induction js as [|job rest IH]; intros i sh; simpl; [done|].
  rewrite IH. destruct (pid job =? 0); [done|].
  by destruct (state job =? BG), (state job =? FG), (state job =? ST).
Qed.

Lemma sigmask_listjobs_from i js sh : sigmask (listjobs_from i js sh) = sigmask sh.
Proof.
  revert i sh. induction js as [|job rest IH]; intros i sh; simpl; [done|].
  rewrite IH. destruct (pid job =? 0); [done|].
  by destruct (state job =? BG), (state job =? FG), (state job =? ST).
Qed.

(** What [addjob] does to the list, whether it succeeds or not. *)
Lemma addjob_jobs sh p st cl :
  jobs (snd (addjob sh p st cl)) = jobs sh ∧
    (p < 1 ∨ full (jobs sh)) ∨
  ∃ i old, jobs sh !! i = Some old ∧ pid old = 0 ∧ 0 < p ∧
           jobs (snd (addjob sh p st cl))
           = <[i := mkjob p (nextjid sh) st cl]> (jobs sh).
Proof.
  unfold addjob. destruct (Z.ltb_spec p 1); [left; split; [done | by left]|].
  destruct (scan _ (jobs sh)) as [i|] eqn:Hs; simpl.
  - right. apply scan_Some in Hs as (old & Hi & Ht & _).
    exists i, old. split_and!; [done | lia | lia |]. by destruct (verbose sh =? 0).
  - left. split; [done | by right].
Qed.

Lemma addjob_sigmask sh p st cl : sigmask (snd (addjob sh p st cl)) = sigmask sh.
Proof.
  unfold addjob. destruct (p <? 1); [done|].
  destruct (scan _ _); simpl; [|done]. by destruct (verbose sh =? 0).
Qed.

Lemma eval_tick_fg_inv c s c' s' :
  eval_tick c s = Some (c', s') →
  fg_inv (mkmachine c s) → fg_inv (mkmachine c' s').
Proof.
  unfold fg_inv. destruct c; simpl; try discriminate.
  - (* EvBlock *) ticked. done.
  - (* EvAdd *) ticked. intros (Hone & Hno & Hp & Habs).
    destruct (addjob_jobs s p (if fginit then FG else BG) cl)
      as [[-> _] | (i & old & Hi & Hold & _ & ->)].
    + split_and!; [done | done | | by apply no_fg_fg_pid].
      intros i1 i2 j1 j2 H1 _ Hp1 _. by destruct (Habs i1 j1 H1).
    + assert (∀ k job, <[i:=mkjob p (nextjid s) (if fginit then FG else BG) cl]>
                         (jobs s) !! k = Some job →
                       (state job = FG ∨ pid job = p) → k = i) as Hk.
      { intros k job [(-> & _) | (Hne & Hk)]%list_lookup_insert_Some; [done|].
        intros [Hf | Heq]; [by destruct (Hno k job Hk) | by destruct (Habs k job Hk)]. }
      split_and!; [| done | |].
      * intros i1 i2 j1 j2 H1 H2 Hf1 Hf2.
        rewrite (Hk i1 j1 H1), (Hk i2 j2 H2); auto.
      * intros i1 i2 j1 j2 H1 H2 Hf1 Hf2.
        rewrite (Hk i1 j1 H1), (Hk i2 j2 H2); auto.
      * intros k job Hjob Hf. pose proof (Hk k job Hjob (or_introl Hf)) as ->.
        apply list_lookup_insert_Some in Hjob as [(_ & <- & _) | (? & _)]; done.
  - (* EvRestore *) ticked. done.
  - (* EvLookup *)
    destruct (getjobpid (jobs s) p) as [i|] eqn:Hg; [|intros [= <- <-]; tauto].
    destruct (jobs s !! i) as [job|] eqn:Hi; ticked; [|tauto].
    intros (Hone & Hp & Huniq & Hfg). split_and!; [done | | done].
    apply getjobpid_Some in Hg as (_ & job' & Hi' & Hpid).
    intros k jobk Hk Hf. apply (Huniq k i jobk job'); auto. by apply (Hfg k).
  - (* EvBranch *)
    destruct (jobs s !! job) as [x|] eqn:Hx; [|intros [= <- <-]; tauto].
    destruct (Z.eqb_spec (state x) FG); intros [= <- <-]; simpl.
    + tauto.
    + intros (Hone & Hin & Hfg). split; [done|].
      intros k jobk Hk Hf. assert (k = job) as -> by (by apply (Hin k jobk)).
      congruence.
  - (* EvPrint *)
    destruct (jobs s !! job); ticked; tauto.
Qed.

Lemma waitfg_tick_fg_inv c s c' s' :
  waitfg_tick c s = Some (c', s') →
  fg_inv (mkmachine c s) → fg_inv (mkmachine c' s').
Proof.
  unfold fg_inv. destruct c; simpl; try discriminate.
  - (* WfLookup *)
    destruct (getjobpid (jobs s) p) as [i|] eqn:Hg; [|intros [= <- <-]; tauto].
    apply getjobpid_Some in Hg as (Hp & _).
    destruct (jobs s !! i); ticked; tauto.
  - (* WfCheck *)
    destruct (Z.eqb_spec (fgpid (jobs s)) 0) as [Hz|Hnz]; ticked;
      [|tauto].
    intros (Hone & Hp & Hfg). split; [done|]. apply (fg_pid_other p); [done | lia].
  - (* WfLoop *)
    destruct (Z.eqb_spec p (fgpid (jobs s))) as [Heq|Hne]; ticked;
      [tauto|].
    intros (Hone & Hp & Hfg). split; [done|]. by apply (fg_pid_other p).
  - (* WfReport *)
    destruct (flag s =? TSTP); [|destruct (flag s =? INTR)];
      ticked; tauto.
Qed.

Lemma strtol_int_frame x s :
  jobs (snd (strtol_int x s)) = jobs s ∧
  sigmask (snd (strtol_int x s)) = sigmask s ∧
  nextjid (snd (strtol_int x s)) = nextjid s ∧
  out (snd (strtol_int x s)) = out s.
Proof. unfold strtol_int. destruct (strtol x) as [v [e|]]; done. Qed.

Lemma alter_BG_no_fg i l : no_fg l → no_fg (alter (set_state BG) i l).
Proof.
  intros H k job (x & Hx & [[-> ->] | [_ ->]])%lookup_alter_Some; [done|].
  by apply (H k).
Qed.

Lemma alter_FG_fg_within i l : no_fg l → fg_within i (alter (set_state FG) i l).
Proof.
  intros H k job (x & Hx & [[-> ->] | [_ ->]])%lookup_alter_Some; [done|].
  intros Hf. by destruct (H k x).
Qed.

Lemma do_bgfg_tick_fg_inv c s c' s' :
  do_bgfg_tick c s = Some (c', s') →
  fg_inv (mkmachine c s) → fg_inv (mkmachine c' s').
Proof.
  unfold fg_inv. destruct c; simpl; try discriminate.
  - (* BfStart *)
    destruct argv as [|argv0 args]; [intros [= <- <-]; tauto|].
    destruct ((argv0 :: args) !! 1%nat) as [a1|]; [|ticked; tauto].
    destruct (strncmp0 a1 "%" 1).
    + destruct (strtol_int _ s) as [myjid s1] eqn:E.
      pose proof (strtol_int_frame (match a1 with String _ r => r | EmptyString => a1 end) s)
        as (Hj & _). rewrite E in Hj. simpl in Hj.
      ticked. by rewrite Hj.
    + destruct (strtol_int a1 s) as [mypid s1] eqn:E.
      pose proof (strtol_int_frame a1 s) as (Hj & _). rewrite E in Hj. simpl in Hj.
      destruct (negb _ && _); ticked; by rewrite Hj.
  - (* BfJidLookup *) intros [= <- <-]. done.
  - (* BfJidMax *)
    destruct (myjid >? maxjid (jobs s)); intros [= <- <-]; done.
  - (* BfJidPid *)
    destruct myjob as [i|]; [|intros [= <- <-]; tauto].
    destruct (jobs s !! i); ticked; tauto.
  - (* BfPidLookup *) intros [= <- <-]. done.
  - (* BfPidCheck *)
    destruct (getjobpid (jobs s) mypid); intros [= <- <-]; done.
  - (* BfPidJid *)
    destruct myjob as [i|]; [|intros [= <- <-]; tauto].
    destruct (jobs s !! i); ticked; tauto.
  - (* BfPidState *)
    destruct (jobs s !! myjob) as [x|]; [|intros [= <- <-]; tauto].
    destruct (state x =? FG); intros [= <- <-]; done.
  - (* BfDispatch *)
    destruct (strncmp0 argv0 "fg" 2); [|destruct (strncmp0 argv0 "bg" 2)];
      intros [= <- <-]; done.
  - (* BfFgStop *) intros [= <- <-]. done.
  - (* BfFgSet *)
    ticked. intros (_ & Hno). split; [|done].
    by eapply fg_within_at_most_one, alter_FG_fg_within.
  - (* BfFgCont *) intros [= <- <-]. done.
  - (* BfFgWait *)
    ticked. intros (Hone & _). split; [done|].
    by apply at_most_one_fg_pid.
  - (* BfBgSet *)
    ticked. intros (_ & Hno).
    pose proof (alter_BG_no_fg myjob _ Hno). split; [by apply no_fg_at_most_one | done].
  - (* BfBgPrint *)
    destruct (jobs s !! myjob); ticked; tauto.
  - (* BfBgCont *) intros [= <- <-]. done.
Qed.

Lemma tick_fg_inv c s c' s' :
  tick c s = Some (c', s') →
  fg_inv (mkmachine c s) → fg_inv (mkmachine c' s').
Proof.
  unfold tick. destruct (eval_tick c s) as [r|] eqn:He.
  { intros [= ->]. by apply eval_tick_fg_inv. }
  destruct (waitfg_tick c s) as [r|] eqn:Hw.
  { intros [= ->]. by apply waitfg_tick_fg_inv. }
  apply do_bgfg_tick_fg_inv.
Qed.

(** The handler keeps the invariant at every program point. *)
Lemma shrinks_fg_inv c s s' :
  shrinks (jobs s) (jobs s') →
  fg_inv (mkmachine c s) → fg_inv (mkmachine c s').
Proof.
  intros Hs. unfold fg_inv. simpl. intros (Hone & Hc).
  split; [by eapply shrinks_at_most_one_fg|].
  destruct c; try done; intuition eauto with handler.
Qed.

Lemma same_jobs_fg_inv c s s' :
  jobs s' = jobs s → fg_inv (mkmachine c s) → fg_inv (mkmachine c s').
Proof. intros E. apply shrinks_fg_inv. rewrite E. apply shrinks_refl. Qed.

Lemma fg_inv_faulted c s : fg_inv (mkmachine c s) → fg_inv (mkmachine Faulted s).
Proof. by intros (Hone & _). Qed.

Lemma boot_fg_inv v : fg_inv (boot v).
Proof.
  assert (no_fg (initjobs jobs0)) as H.
  { intros i job. unfold initjobs.
    rewrite list_lookup_fmap, fmap_Some. by intros (x & _ & ->). }
  split; [by apply no_fg_at_most_one | done].
Qed.

Lemma step_fg_inv l m m' : step l m = Some m' → fg_inv m → fg_inv m'.
Proof.
  destruct m as [c s]. destruct l; simpl.
  - (* LEof *) destruct c; try discriminate. intros [= <-]. intros (Hone & _). done.
  - (* LStdinError *)
    destruct c; try discriminate. intros [= <-]. intros (Hone & _). done.
  - (* LCommand *)
    destruct c; try discriminate.
    destruct cmd; intros [= <-]; unfold fg_inv; simpl; try done.
    + tauto.
    + unfold listjobs. by rewrite jobs_listjobs_from.
  - (* LFork *)
    destruct c; try discriminate.
    destruct (getjobpid (jobs s) p) eqn:Hg; [discriminate|].
    destruct (Z.ltb_spec 0 p); [|discriminate]. intros [= <-].
    unfold fg_inv. simpl. intros (Hone & Hno). split_and!; auto.
    by apply getjobpid_None.
  - (* LForkFail *)
    destruct c; try discriminate. intros [= <-]. by intros (Hone & _).
  - (* LTick *)
    destruct (tick c s) as [[c' s']|] eqn:Ht; [|discriminate].
    intros [= <-]. by apply tick_fg_inv.
  - (* LSigchld *)
    destruct (deliver _ _); [|discriminate].
    destruct (sigchld_handler k s) as [[k' s']|] eqn:Hh; intros [= <-].
    + intros H. apply (shrinks_fg_inv c s); [|done]. simpl.
      by eapply sigchld_handler_shrinks.
    + apply fg_inv_faulted.
  - (* LSigint *)
    destruct (deliver _ _); [|discriminate]. intros [= <-].
    apply same_jobs_fg_inv. unfold sigint_handler. by destruct (_ =? _).
  - (* LSigtstp *)
    destruct (deliver _ _); [|discriminate]. intros [= <-].
    apply same_jobs_fg_inv. unfold sigtstp_handler. by destruct (_ =? _).
  - (* LSigquit *)
    destruct (deliver _ _); [|discriminate]. intros [= <-]. by intros (Hone & _).
Qed.

Lemma reachable_fg_inv m : reachable m → fg_inv m.
Proof.
  induction 1 as [v | l m m' _ IH Hstep]; [apply boot_fg_inv|].
  by eapply step_fg_inv.
Qed.

Lemma exec_reachable ls m m' : reachable m → exec ls m = Some m' → reachable m'.
Proof.
  revert m. induction ls as [|l ls IH]; intros m Hm; simpl.
  - by intros [= <-].
  - destruct (step l m) as [m1|] eqn:Hs; [|discriminate].
    apply IH. by eapply reach_step.
Qed.

(** C1.  In every state the shell can reach, whatever commands are typed
    (launches, fg, bg, jobs) and wherever the SIGCHLD, SIGINT and SIGTSTP
    handlers cut in, at most one slot of the job list is in state FG. *)
Theorem one_foreground_job m : reachable m → at_most_one_fg (jobs (sh m)).
Proof. intros Hm. by destruct (reachable_fg_inv m Hm). Qed.

(** While waitfg polls for the foreground job 5, it is the only one. *)
Lemma one_foreground_job_witness :
  reachable (after launch_fg_waiting) ∧
  fgpid (jobs (sh (after launch_fg_waiting))) = 5 ∧
  at_most_one_fg (jobs (sh (after launch_fg_waiting))).
Proof.
  assert (reachable (after launch_fg_waiting)) as Hr.
  { apply (exec_reachable launch_fg_waiting (boot 0)); [apply reach_boot | reflexivity]. }
  split; [exact Hr|]. split; [reflexivity|].
  apply (one_foreground_job (after launch_fg_waiting)). exact Hr.
Defined.

(** ** SIGCHLD across a launch *)

Lemma eval_tick_mask_inv c s c' s' :
  eval_tick c s = Some (c', s') →
  mask_inv (mkmachine c s) → mask_inv (mkmachine c' s').
Proof.
  unfold mask_inv. destruct c; simpl; try discriminate.
  - (* EvBlock *) ticked. intros Hm. rewrite Hm. by split.
  - (* EvAdd *)
    ticked. intros (-> & Hm & Hp). rewrite addjob_sigmask.
    split_and!; [done | done |].
    destruct (addjob_jobs s p (if fginit then FG else BG) cl)
      as [[-> [? | Hfull]] | (i & old & Hi & _ & _ & ->)]; [lia | by right |].
    left. apply (getjobpid_is_Some _ p i (mkjob p (nextjid s) (if fginit then FG else BG) cl));
      [done | | done].
    apply list_lookup_insert_eq. by apply lookup_lt_Some in Hi.
  - (* EvRestore *) ticked. tauto.
  - (* EvLookup *)
    destruct (getjobpid (jobs s) p) as [i|]; [|by ticked].
    destruct (jobs s !! i); by ticked.
  - (* EvBranch *)
    destruct (jobs s !! job) as [x|]; [|by ticked].
    destruct (state x =? FG); by ticked.
  - (* EvPrint *)
    destruct (jobs s !! job); by ticked.
Qed.

Lemma waitfg_tick_mask_inv c s c' s' :
  waitfg_tick c s = Some (c', s') →
  mask_inv (mkmachine c s) → mask_inv (mkmachine c' s').
Proof.
  unfold mask_inv. destruct c; simpl; try discriminate.
  - destruct (getjobpid (jobs s) p) as [i|]; [|by ticked].
    destruct (jobs s !! i); by ticked.
  - destruct (fgpid (jobs s) =? 0); by ticked.
  - destruct (p =? fgpid (jobs s)); by ticked.
  - destruct (flag s =? TSTP); [|destruct (flag s =? INTR)]; by ticked.
Qed.

Lemma do_bgfg_tick_mask_inv c s c' s' :
  do_bgfg_tick c s = Some (c', s') →
  mask_inv (mkmachine c s) → mask_inv (mkmachine c' s').
Proof.
  unfold mask_inv. destruct c; simpl; try discriminate;
    try (by ticked).
  - (* BfStart *)
    destruct argv as [|argv0 args]; [by ticked|].
    destruct ((argv0 :: args) !! 1%nat) as [a1|]; [|by ticked].
    destruct (strncmp0 a1 "%" 1).
    + destruct (strtol_int _ s) as [myjid s1] eqn:E.
      pose proof (strtol_int_frame (match a1 with String _ r => r | EmptyString => a1 end) s)
        as (_ & Hm & _). rewrite E in Hm. simpl in Hm.
      ticked. by rewrite Hm.
    + destruct (strtol_int a1 s) as [mypid s1] eqn:E.
      pose proof (strtol_int_frame a1 s) as (_ & Hm & _). rewrite E in Hm. simpl in Hm.
      destruct (negb _ && _); ticked; by rewrite Hm.
  - destruct (myjid >? maxjid (jobs s)); by ticked.
  - destruct myjob as [i|]; [|by ticked].
    destruct (jobs s !! i); by ticked.
  - destruct (getjobpid (jobs s) mypid); by ticked.
  - destruct myjob as [i|]; [|by ticked].
    destruct (jobs s !! i); by ticked.
  - destruct (jobs s !! myjob) as [x|]; [|by ticked].
    destruct (state x =? FG); by ticked.
  - destruct (strncmp0 argv0 "fg" 2); [|destruct (strncmp0 argv0 "bg" 2)];
      by ticked.
  - destruct (jobs s !! myjob); by ticked.
Qed.

Lemma tick_mask_inv c s c' s' :
  tick c s = Some (c', s') →
  mask_inv (mkmachine c s) → mask_inv (mkmachine c' s').
Proof.
  unfold tick. destruct (eval_tick c s) as [r|] eqn:He.
  { intros [= ->]. by apply eval_tick_mask_inv. }
  destruct (waitfg_tick c s) as [r|] eqn:Hw.
  { intros [= ->]. by apply waitfg_tick_mask_inv. }
  apply do_bgfg_tick_mask_inv.
Qed.

(** With SIGCHLD in the mask the handler is not run. *)
Lemma chld_block_blocks c s :
  sigmask s = chld_block → sigchld_blocked (mkmachine c s).
Proof.
  intros Hm k. unfold step, deliver. simpl. rewrite Hm.
  by rewrite andb_false_r.
Qed.

Lemma deliver_unblocked c s :
  deliver SIGCHLD (mkmachine c s) = true → sigmask s ≠ chld_block.
Proof.
  unfold deliver. simpl. intros H E. rewrite E in H. by rewrite andb_false_r in H.
Qed.

(** A handler that only reads the list and signals the foreground job. *)
Lemma relay_mask_inv c s s' :
  jobs s' = jobs s → sigmask s' = sigmask s →
  mask_inv (mkmachine c s) → mask_inv (mkmachine c s').
Proof. unfold mask_inv. simpl. intros -> ->. done. Qed.

Lemma step_mask_inv l m m' : step l m = Some m' → mask_inv m → mask_inv m'.
Proof.
  destruct m as [c s]. destruct l; simpl.
  - (* LEof *) destruct c; try discriminate. by intros [= <-].
  - (* LStdinError *) destruct c; try discriminate. by intros [= <-].
  - (* LCommand *)
    destruct c; try discriminate.
    destruct cmd; intros [= <-]; unfold mask_inv; simpl; try done.
    unfold listjobs. by rewrite sigmask_listjobs_from.
  - (* LFork *)
    destruct c; try discriminate.
    destruct (getjobpid (jobs s) p); [discriminate|].
    destruct (Z.ltb_spec 0 p); [|discriminate]. intros [= <-].
    unfold mask_inv. simpl. tauto.
  - (* LForkFail *) destruct c; try discriminate. by intros [= <-].
  - (* LTick *)
    destruct (tick c s) as [[c' s']|] eqn:Ht; [|discriminate].
    intros [= <-]. by apply tick_mask_inv.
  - (* LSigchld *)
    destruct (deliver SIGCHLD _) eqn:Hd; [|discriminate].
    destruct (sigchld_handler k s) as [[k' s']|] eqn:Hh; intros [= <-]; [|done].
    apply deliver_unblocked in Hd.
    unfold mask_inv. simpl. intros Hinv.
    (* between the fork and the restore SIGCHLD is blocked *)
    destruct c; try done; tauto.
  - (* LSigint *)
    destruct (deliver _ _); [|discriminate]. intros [= <-].
    apply relay_mask_inv; unfold sigint_handler; by destruct (_ =? _).
  - (* LSigtstp *)
    destruct (deliver _ _); [|discriminate]. intros [= <-].
    apply relay_mask_inv; unfold sigtstp_handler; by destruct (_ =? _).
  - (* LSigquit *)
    destruct (deliver _ _); [|discriminate]. by intros [= <-].
Qed.

Lemma reachable_mask_inv m : reachable m → mask_inv m.
Proof.
  induction 1 as [v | l m m' _ IH Hstep]; [done|].
  by eapply step_mask_inv.
Qed.

(** Between [addjob] and the restore of the mask only the SIGINT, SIGTSTP
    and SIGQUIT handlers can run, and they leave the job list and the mask
    alone. *)
Lemma restore_pending prev p ls :
  ∀ m1 m2, LTick ∉ ls → exec ls m1 = Some m2 →
    (ctl m1 = EvRestore prev p ∧ sigmask (sh m1) = chld_block) ∨
    (∃ code, ctl m1 = Halted code) →
    ((ctl m2 = EvRestore prev p ∧ sigmask (sh m2) = chld_block) ∨
     (∃ code, ctl m2 = Halted code)) ∧
    jobs (sh m2) = jobs (sh m1).
Proof.
  induction ls as [|l ls IH]; intros m1 m2 Hls; simpl.
  { intros [= <-] H. by split. }
  apply not_elem_of_cons in Hls as [Hl Hls].
  destruct (step l m1) as [m|] eqn:Hstep; [|discriminate].
  intros Hexec Hc.
  assert (((ctl m = EvRestore prev p ∧ sigmask (sh m) = chld_block) ∨
           (∃ code, ctl m = Halted code)) ∧ jobs (sh m) = jobs (sh m1))
    as [Hc' Hj].
  { destruct m1 as [c s]. simpl in *.
    destruct Hc as [[-> Hm] | [code ->]].
    - destruct l; simpl in Hstep; try discriminate; try done.
      + unfold deliver in Hstep. simpl in Hstep. rewrite Hm in Hstep.
        discriminate.
      + unfold deliver in Hstep. simpl in Hstep. rewrite Hm in Hstep.
        simpl in Hstep. injection Hstep as <-. simpl.
        unfold sigint_handler. destruct (_ =? _); simpl; by split; [left|].
      + unfold deliver in Hstep. simpl in Hstep. rewrite Hm in Hstep.
        simpl in Hstep. injection Hstep as <-. simpl.
        unfold sigtstp_handler. destruct (_ =? _); simpl; by split; [left|].
      + unfold deliver in Hstep. simpl in Hstep. rewrite Hm in Hstep.
        simpl in Hstep. injection Hstep as <-. simpl.
        split; [right; by eexists | done].
    - destruct l; simpl in Hstep; try discriminate; try done. }
  destruct (IH m m2 Hls Hexec Hc') as [H1 H2]. split; [done|congruence].
Qed.

Lemma halted_blocks code s : sigchld_blocked (mkmachine (Halted code) s).
Proof. by intros k. Qed.

(** C2, amended.  In every launch the shell can reach: SIGCHLD is blocked,
    and the mask in force saved, before the fork; from then until the
    saved mask is restored no SIGCHLD handler can run; the mask is restored
    only after [addjob] has run; and when the list had a free slot at that
    point, the child is in the job list from [addjob] until the restore,
    whatever other signals arrive in between. *)
Theorem launch_blocks_sigchld m : reachable m → launch_protocol m.
Proof.
  intros Hm%reachable_mask_inv. destruct m as [c s].
  unfold launch_protocol, mask_inv in *. simpl in *.
  destruct c; try done.
  - (* EvBlock *)
    eexists. split_and!; [done | done |].
    apply chld_block_blocks. simpl. by rewrite Hm.
  - (* EvFork *)
    destruct Hm as (_ & Hm). by apply chld_block_blocks.
  - (* EvAdd *)
    destruct Hm as (_ & Hm & Hp). split; [by apply chld_block_blocks|].
    eexists. split_and!; [done | done |].
    intros ls m2 Hls Hexec.
    edestruct (restore_pending prev p ls) as [Hc Hj]; [done | done | |].
    { left. simpl. split; [done|]. by rewrite addjob_sigmask. }
    simpl in Hj. split_and!.
    + destruct Hc as [[Hc _] | Hc]; [by left | by right].
    + destruct m2 as [c2 s2]. simpl in *.
      destruct Hc as [[_ Hc] | [code ->]];
        [by apply chld_block_blocks | apply halted_blocks].
    + intros Hfree. rewrite Hj.
      destruct (addjob_jobs s p (if fginit then FG else BG) cl)
        as [[_ [? | Hfull]] | (i & old & Hi & _ & _ & ->)]; [lia | done |].
      apply (getjobpid_is_Some _ p i
               (mkjob p (nextjid s) (if fginit then FG else BG) cl));
        [done | | done].
      apply list_lookup_insert_eq. by apply lookup_lt_Some in Hi.
  - (* EvRestore *)
    destruct Hm as (_ & Hm & _). split; [by apply chld_block_blocks|].
    eexists. by split_and!.
Qed.

(** The sixteenth launch of a session, about to run [addjob]: fifteen jobs
    are live and the last slot is free. *)
Lemma launch_blocks_sigchld_witness :
  reachable (after last_slot_launch) ∧
  ctl (after last_slot_launch) = EvAdd "sleep 100 &" false sigemptyset 116 ∧
  ¬ full (jobs (sh (after last_slot_launch))) ∧
  launch_protocol (after last_slot_launch).
Proof.
  assert (reachable (after last_slot_launch)) as Hr.
  { apply (exec_reachable last_slot_launch (boot 0));
      [apply reach_boot | by vm_compute]. }
  split; [exact Hr|]. split; [by vm_compute|].
  split; [intros H; vm_compute in H; discriminate|].
  apply (launch_blocks_sigchld (after last_slot_launch)). exact Hr.
Defined.

Lemma fill_table_reachable : reachable (after fill_table).
Proof.
  apply (exec_reachable fill_table (boot 0)); [apply reach_boot | by vm_compute].
Qed.

(** C2 as stated fails on a full list.  After sixteen background launches
    a seventeenth reaches the restore of the mask with no entry for its
    child 117; and if the child has already ended, the handler that runs
    once the mask is restored looks it up in vain and dereferences NULL. *)
Lemma launch_unregistered_counterexample :
  ¬ registered_before_unblock ∧
  ctl (after (fill_table ++ launch_to_restore "sleep 1 &" true 117
              ++ [LTick; LSigchld (mkkernel [(117, W_EXIT0)] false)])) = Faulted.
Proof.
  split; [|by vm_compute].
  intros H.
  specialize (H (after (fill_table ++ launch_to_restore "sleep 1 &" true 117))
                sigemptyset 117).
  assert (is_Some (@None nat)) as [x Hx]; [|discriminate].
  apply H; [|by vm_compute].
  apply (exec_reachable (fill_table ++ launch_to_restore "sleep 1 &" true 117) (boot 0));
    [apply reach_boot | by vm_compute].
Qed.

(** ** A launch on a full job list *)

Lemma addjob_full sh p st cl :
  1 ≤ p → full (jobs sh) →
  addjob sh p st cl = (0, printf "Tried to create too many jobs\n" [] sh).
Proof.
  intros Hp Hfull. unfold addjob. destruct (Z.ltb_spec p 1); [lia|].
  unfold full in Hfull. by rewrite Hfull.
Qed.

Lemma addjob_length sh p st cl :
  length (jobs (snd (addjob sh p st cl))) = length (jobs sh).
Proof.
  destruct (addjob_jobs sh p st cl) as [[-> _] | (i & old & _ & _ & _ & ->)];
    [done | apply length_insert].
Qed.

(** On a full list [addjob] reports and leaves the list alone, and [eval]
    then dereferences the NULL that [getjobpid] returns for the child. *)
Lemma eval_full_faults s cl fginit prev p :
  0 < p → full (jobs s) → getjobpid (jobs s) p = None →
  ∃ s', mainline 3 (EvAdd cl fginit prev p) s = (Faulted, s') ∧
        jobs s' = jobs s ∧ nextjid s' = nextjid s ∧
        out s' = out s ++ [Stdout (String.append "Tried to create too many jobs" nl)].
Proof.
  intros Hp Hfull Hg. unfold mainline, tick. simpl.
  rewrite addjob_full by (done || lia). simpl. rewrite Hg.
  eexists. split; [reflexivity|]. done.
Qed.

(** C8 fails on the code.  After sixteen background launches the list is
    full; the seventeenth launch makes [addjob] print its message and
    leave the list as it is, and two statements later [eval] dereferences
    NULL instead of returning to the command loop. *)
Theorem launch_on_full_table_faults :
  let m := after fill_table in
  let m1 := after (fill_table ++ launch_to_restore "sleep 1 &" true 117) in
  reachable m ∧ ctl m = Prompt ∧ full (jobs (sh m)) ∧
  exec (launch_to_restore "sleep 1 &" true 117) m = Some m1 ∧
  jobs (sh m1) = jobs (sh m) ∧
  out (sh m1) = out (sh m) ++ [Stdout (String.append "Tried to create too many jobs" nl)] ∧
  ctl <$> exec (ticks 2) m1 = Some Faulted.
Proof.
  split; [apply fill_table_reachable|].
  split_and!; vm_compute; reflexivity.
Qed.

(** ** fg and bg with a selector that names no job *)

(** An unknown pid is reported and nothing else happens. *)
Lemma do_bgfg_unknown_pid argv0 a1 args s :
  strncmp0 a1 "%" 1 = false →
  getjobpid (jobs s) (fst (strtol_int a1 s)) = None →
  ∃ s' msg, mainline 3 (BfStart (argv0 :: a1 :: args)) s = (Prompt, s') ∧
            jobs s' = jobs s ∧ nextjid s' = nextjid s ∧
            out s' = out s ++ [Stderr msg].
Proof.
  intros Hpct Hg. unfold mainline, tick. simpl. rewrite Hpct.
  pose proof (strtol_int_frame a1 s) as (Hj & _ & Hn & Ho).
  destruct (strtol_int a1 s) as [mypid s1]. simpl in *.
  destruct (negb _ && _); simpl.
  - do 2 eexists. split; [reflexivity|]. simpl. by rewrite Hj, Hn, Ho.
  - rewrite Hj, Hg. do 2 eexists. split; [reflexivity|]. simpl.
    by rewrite Hj, Hn, Ho.
Qed.

(** A %jid above [maxjid(jobs)] is reported and nothing else happens. *)
Lemma do_bgfg_jid_above_max argv0 rest args s :
  maxjid (jobs s) < fst (strtol_int rest s) →
  ∃ s' msg, mainline 3 (BfStart (argv0 :: String "%" rest :: args)) s = (Prompt, s') ∧
            jobs s' = jobs s ∧ nextjid s' = nextjid s ∧
            out s' = out s ++ [Stderr msg].
Proof.
  intros Hmax. unfold mainline, tick. simpl.
  change (strncmp0 (String "%" rest) "%" 1) with true. cbv iota.
  pose proof (strtol_int_frame rest s) as (Hj & _ & Hn & Ho).
  destruct (strtol_int rest s) as [myjid s1]. simpl in *.
  rewrite Hj. destruct (Z.gtb_spec myjid (maxjid (jobs s))); [|lia].
  do 2 eexists. split; [reflexivity|]. simpl. by rewrite Hj, Hn, Ho.
Qed.

(** A %jid that no job has, at or below [maxjid(jobs)], gets past the test
    and [myjob->pid] dereferences NULL. *)
Lemma do_bgfg_gap_faults argv0 rest args s :
  fst (strtol_int rest s) ≤ maxjid (jobs s) →
  getjobjid (jobs s) (fst (strtol_int rest s)) = None →
  ∃ s', mainline 4 (BfStart (argv0 :: String "%" rest :: args)) s = (Faulted, s') ∧
        out s' = out s.
Proof.
  intros Hmax Hg. unfold mainline, tick. simpl.
  change (strncmp0 (String "%" rest) "%" 1) with true. cbv iota.
  pose proof (strtol_int_frame rest s) as (Hj & _ & Hn & Ho).
  destruct (strtol_int rest s) as [myjid s1]. simpl in *.
  rewrite Hj. destruct (Z.gtb_spec myjid (maxjid (jobs s))); [lia|].
  rewrite Hg. eexists. split; [reflexivity|]. done.
Qed.

(** C5 fails on the code.  With the live jids 1 and 3, "bg %2" names no
    job; 2 is not above [maxjid(jobs)] = 3, so no error is printed and
    [do_bgfg] dereferences the NULL that [getjobjid] returned. *)
Theorem do_bgfg_gap_jid_faults :
  let m := after gap_in_jids in
  reachable m ∧ ctl m = Prompt ∧
  getjobjid (jobs (sh m)) 2 = None ∧ maxjid (jobs (sh m)) = 3 ∧
  exec (LCommand (CmdBgfg ["bg"; "%2"]) 0 :: ticks 4) m
  = Some (mkmachine Faulted (sh m)).
Proof.
  split; [|split_and!; by vm_compute].
  apply (exec_reachable gap_in_jids (boot 0)); [apply reach_boot | by vm_compute].
Qed.

(** The test for a job that is already in the foreground is made on the
    pid path only: on a list whose job 1 (pid 5) is in the foreground,
    "fg 5" is refused and "fg %1" goes on to signal the job. *)
Lemma do_bgfg_foreground_test :
  let s := sh (after launch_fg_waiting) in
  (∃ s', mainline 5 (BfStart ["fg"; "5"]) s = (Prompt, s') ∧
         out s' = out s ++ [Stderr (String.append "(5): Already in foreground" nl)]) ∧
  (∃ c s', mainline 6 (BfStart ["fg"; "%1"]) s = (c, s') ∧
           out s' = out s ++ [Kill (-5) SIGTSTP]).
Proof. split; [eexists | do 2 eexists]; split; by vm_compute. Qed.

(** ** waitfg when the job is gone *)

Lemma waitfg_lookup_faults p s :
  getjobpid (jobs s) p = None → tick (WfLookup p) s = Some (Faulted, s).
Proof. intros Hg. unfold tick. simpl. by rewrite Hg. Qed.

(** Past its first two lines waitfg only polls [fgpid], which never
    dereferences a job pointer. *)
Lemma waitfg_poll_safe c s c' s' :
  waitfg_tick c s = Some (c', s') →
  (∀ p, c ≠ WfLookup p) → c' ≠ Faulted.
Proof.
  destruct c; simpl; try discriminate.
  - intros _ H. by destruct (H p).
  - destruct (_ =? _); by intros [= <- <-].
  - destruct (_ =? _); by intros [= <- <-].
  - destruct (_ =? _); [|destruct (_ =? _)]; by intros [= <- <-].
Qed.

(** A foreground child that ends while waitfg is polling: the handler
    clears its slot and waitfg returns to the prompt. *)
Example waitfg_job_cleared_while_waiting :
  let m := after (launch_fg_waiting
                  ++ [LSigchld (mkkernel [(5, W_EXIT0)] true); LTick; LTick]) in
  ctl m = Prompt ∧ getjobpid (jobs (sh m)) 5 = None.
Proof. split; by vm_compute. Qed.

(** C6 fails on the code.  A foreground child that ends, and is reaped,
    after [eval] has tested its state and before [waitfg] starts leaves no
    foreground job and no entry for pid 5; [waitfg(5)] then dereferences
    the NULL from [getjobpid] before it reaches its test of [fgpid]. *)
Theorem waitfg_faults_when_job_gone :
  let m := after fg_child_gone in
  reachable m ∧ ctl m = WfLookup 5 ∧
  fgpid (jobs (sh m)) = 0 ∧ getjobpid (jobs (sh m)) 5 = None ∧
  step LTick m = Some (mkmachine Faulted (sh m)).
Proof.
  split; [|split_and!; by vm_compute].
  apply (exec_reachable fg_child_gone (boot 0)); [apply reach_boot | by vm_compute].
Qed.

(** * Further properties of the job list *)

(** A scan only looks at what its test says of each slot. *)
Lemma scan_congr test (l l' : list job_t) :
  test <$> l = test <$> l' → scan test l = scan test l'.
Proof.
  revert l'. induction l as [|a l IH]; intros [|a' l']; simpl; try done.
  intros [= Ha Hl]. rewrite Ha. by rewrite (IH l' Hl).
Qed.

Lemma scan_insert_same test (l : list job_t) i old new :
  l !! i = Some old → test new = test old →
  scan test (<[i := new]> l) = scan test l.
Proof.
  intros Hi Ht. apply scan_congr. rewrite list_fmap_insert, Ht.
  apply list_insert_id. by rewrite list_lookup_fmap, Hi.
Qed.

Lemma scan_alter_same test (f : job_t → job_t) (l : list job_t) i :
  (∀ old, l !! i = Some old → test (f old) = test old) →
  scan test (alter f i l) = scan test l.
Proof.
  intros Ht. apply scan_congr. apply list_eq. intros k.
  rewrite !list_lookup_fmap. destruct (decide (i = k)) as [->|Hne].
  - rewrite list_lookup_alter_eq. destruct (l !! k) as [old|] eqn:Hk; [|done].
    simpl. by rewrite Ht.
  - by rewrite list_lookup_alter_ne.
Qed.

(** X1.  [maxjid] is the largest jid found in the list, or 0 when no jid
    is positive: it is never negative, no slot has a larger jid, and it is
    0 or the jid of some slot. *)
Theorem maxjid_is_max (l : list job_t) :
  0 ≤ maxjid l ∧
  (∀ k job, l !! k = Some job → jid job ≤ maxjid l) ∧
  (maxjid l = 0 ∨ ∃ k job, l !! k = Some job ∧ jid job = maxjid l).
Proof.
  split_and!.
  - apply maxjid_fold_ge.
  - apply maxjid_ge.
  - apply maxjid_fold_attained.
Qed.

(** X2.  [getjobpid] returns the first slot, in index order, that holds
    the pid, and NULL exactly when the pid is below 1 or in no slot. *)
Theorem getjobpid_first (l : list job_t) p :
  (∀ i, getjobpid l p = Some i ↔
        1 ≤ p ∧ ∃ job, l !! i = Some job ∧ pid job = p ∧
                       ∀ k job', (k < i)%nat → l !! k = Some job' → pid job' ≠ p) ∧
  (getjobpid l p = None ↔ p < 1 ∨ absent p l).
Proof.
  unfold getjobpid, absent. destruct (Z.ltb_spec p 1) as [Hlt|Hge]; split.
  - intros i. split; [done | lia].
  - split; [by left | done].
  - intros i. rewrite scan_Some. split.
    + intros (job & Hi & Ht & Hfirst). split; [done|]. exists job.
      split_and!; [done | lia |]. intros k job' Hk Hjob'.
      specialize (Hfirst k job' Hk Hjob'). simpl in Hfirst. lia.
    + intros (_ & job & Hi & Hp & Hfirst). exists job.
      split_and!; [done | lia |]. intros k job' Hk Hjob'.
      specialize (Hfirst k job' Hk Hjob'). lia.
  - rewrite scan_None. split.
    + intros H. right. intros i job Hi Heq. specialize (H i job Hi). simpl in H. lia.
    + intros [? | H]; [lia|]. intros k job Hk. specialize (H k job Hk). lia.
Qed.

(** X3.  [getjobjid] returns the first slot that holds the jid, and NULL
    exactly when the jid is below 1 or in no slot. *)
Theorem getjobjid_first (l : list job_t) j :
  (∀ i, getjobjid l j = Some i ↔
        1 ≤ j ∧ ∃ job, l !! i = Some job ∧ jid job = j ∧
                       ∀ k job', (k < i)%nat → l !! k = Some job' → jid job' ≠ j) ∧
  (getjobjid l j = None ↔ j < 1 ∨ ∀ i job, l !! i = Some job → jid job ≠ j).
Proof.
  unfold getjobjid. destruct (Z.ltb_spec j 1) as [Hlt|Hge]; split.
  - intros i. split; [done | lia].
  - split; [by left | done].
  - intros i. rewrite scan_Some. split.
    + intros (job & Hi & Ht & Hfirst). split; [done|]. exists job.
      split_and!; [done | lia |]. intros k job' Hk Hjob'.
      specialize (Hfirst k job' Hk Hjob'). simpl in Hfirst. lia.
    + intros (_ & job & Hi & Hp & Hfirst). exists job.
      split_and!; [done | lia |]. intros k job' Hk Hjob'.
      specialize (Hfirst k job' Hk Hjob'). lia.
  - rewrite scan_None. split.
    + intros H. right. intros i job Hi Heq. specialize (H i job Hi). simpl in H. lia.
    + intros [? | H]; [lia|]. intros k job Hk. specialize (H k job Hk). lia.
Qed.

Lemma getjobpid_insert_other (l : list job_t) i old new q :
  l !! i = Some old → pid old ≠ q → pid new ≠ q →
  getjobpid (<[i := new]> l) q = getjobpid l q.
Proof.
  intros Hi Ho Hn. unfold getjobpid. destruct (q <? 1); [done|].
  apply (scan_insert_same _ l i old new Hi). lia.
Qed.

(** X4.  Adding a job whose pid is not in the list and looking it up: the
    lookup by pid finds the slot just written, [pid2jid] gives the jid
    that was next, and the lookup of every other pid is as before. *)
Theorem addjob_then_lookup sh p st cl :
  fst (addjob sh p st cl) = 1 → absent p (jobs sh) →
  let sh' := snd (addjob sh p st cl) in
  (∃ i, getjobpid (jobs sh') p = Some i ∧
        jobs sh' !! i = Some (mkjob p (nextjid sh) st cl)) ∧
  pid2jid (jobs sh') p = nextjid sh ∧
  (∀ q, q ≠ p → getjobpid (jobs sh') q = getjobpid (jobs sh) q).
Proof.
  intros (Hp & i & Hs)%addjob_success_inv Habs. simpl.
  destruct (addjob_Some sh p st cl i Hp Hs) as (_ & -> & _).
  pose proof (scan_lt _ _ _ Hs) as Hlt.
  apply scan_Some in Hs as (old & Hi & Ht & _).
  assert (pid old = 0) as Hold by lia.
  assert (scan (fun job => pid job =? p)
               (<[i:=mkjob p (nextjid sh) st cl]> (jobs sh)) = Some i) as Hscan.
  { apply scan_Some. exists (mkjob p (nextjid sh) st cl).
    split_and!; [by apply list_lookup_insert_eq | simpl; lia |].
    intros k job' Hk Hjob'. rewrite list_lookup_insert_ne in Hjob' by lia.
    specialize (Habs k job' Hjob'). lia. }
  split_and!.
  - exists i. unfold getjobpid. destruct (Z.ltb_spec p 1); [lia|].
    split; [done | by apply list_lookup_insert_eq].
  - unfold pid2jid. destruct (Z.ltb_spec p 1); [lia|]. rewrite Hscan.
    by rewrite list_lookup_insert_eq.
  - intros q Hq. destruct (Z.ltb_spec q 1) as [Hq1|Hq1].
    + unfold getjobpid. by destruct (Z.ltb_spec q 1); [|lia].
    + apply (getjobpid_insert_other _ i old); [done | lia | simpl; lia].
Qed.

(** The second launch of a session: pid 6 is found in slot 1 with jid 2. *)
Lemma addjob_then_lookup_witness :
  let sh := snd (addjob (shell0 0) 5 BG "sleep 100 &") in
  let sh' := snd (addjob sh 6 FG "sleep 5") in
  (∃ i, getjobpid (jobs sh') 6 = Some i ∧
        jobs sh' !! i = Some (mkjob 6 (nextjid sh) FG "sleep 5")) ∧
  pid2jid (jobs sh') 6 = nextjid sh ∧
  (∀ q, q ≠ 6 → getjobpid (jobs sh') q = getjobpid (jobs sh) q).
Proof.
  apply (addjob_then_lookup (snd (addjob (shell0 0) 5 BG "sleep 100 &")) 6 FG "sleep 5").
  - reflexivity.
  - intros i job Hi. vm_compute in Hi.
    repeat (destruct i as [|i]; [injection Hi as <-; simpl; lia|]). discriminate.
Defined.

Lemma getjobpid_alter_other (f : job_t → job_t) (l : list job_t) i q :
  (∀ old, l !! i = Some old → pid old ≠ q ∧ pid (f old) ≠ q) →
  getjobpid (alter f i l) q = getjobpid l q.
Proof.
  intros H. unfold getjobpid. destruct (q <? 1); [done|].
  apply scan_alter_same. intros old Hold. destruct (H old Hold). lia.
Qed.

(** X5.  Deleting a job whose pid is in one slot only and looking it up:
    the pid is no longer found, [pid2jid] gives 0, every other pid is
    found where it was, and [nextjid] is one above the largest jid left. *)
Theorem deletejob_then_lookup sh p :
  fst (deletejob sh p) = 1 → uniq_pid p (jobs sh) →
  let sh' := snd (deletejob sh p) in
  getjobpid (jobs sh') p = None ∧
  pid2jid (jobs sh') p = 0 ∧
  (∀ q, q ≠ p → getjobpid (jobs sh') q = getjobpid (jobs sh) q) ∧
  nextjid sh' = maxjid (jobs sh') + 1 ∧
  length (jobs sh') = length (jobs sh).
Proof.
  intros (Hp & i & Hs)%deletejob_success_inv Huniq.
  rewrite (deletejob_Some sh p i Hp Hs). simpl.
  apply scan_Some in Hs as (old & Hi & Ht & _).
  assert (pid old = p) as Hold by lia.
  assert (scan (fun job => pid job =? p) (alter clearjob i (jobs sh)) = None) as Hnone.
  { apply scan_None. intros k job (x & Hx & [[-> ->] | [Hne ->]])%lookup_alter_Some.
    - apply Z.eqb_neq. simpl. lia.
    - destruct (Z.eqb_spec (pid x) p) as [Heq|]; [|done].
      destruct Hne. by apply (Huniq k i x old). }
  split_and!.
  - unfold getjobpid. by destruct (p <? 1).
  - unfold pid2jid. destruct (p <? 1); [done|]. by rewrite Hnone.
  - intros q Hq. destruct (Z.ltb_spec q 1) as [Hq1|Hq1].
    + unfold getjobpid. by destruct (Z.ltb_spec q 1); [|lia].
    + apply getjobpid_alter_other. intros old' Hold'.
      assert (old' = old) as -> by congruence. simpl. lia.
  - done.
  - apply length_alter.
Qed.

(** With the jobs 11, 12, 13, job 12 is deleted. *)
Lemma deletejob_then_lookup_witness :
  let sh' := snd (deletejob three_jobs 12) in
  getjobpid (jobs sh') 12 = None ∧
  pid2jid (jobs sh') 12 = 0 ∧
  (∀ q, q ≠ 12 → getjobpid (jobs sh') q = getjobpid (jobs three_jobs) q) ∧
  nextjid sh' = maxjid (jobs sh') + 1 ∧
  length (jobs sh') = length (jobs three_jobs).
Proof.
  apply (deletejob_then_lookup three_jobs 12).
  - reflexivity.
  - intros i1 i2 j1 j2 H1 H2 Hp1 Hp2. vm_compute in H1, H2.
    assert (i1 = 1%nat) as ->.
    { do 16 (destruct i1 as [|i1];
             [first [done | injection H1 as <-; simpl in Hp1; lia]|]).
      discriminate. }
    do 16 (destruct i2 as [|i2];
           [first [done | injection H2 as <-; simpl in Hp2; lia]|]).
    discriminate.
Defined.

(** X6.  [deletejob] fails, returning 0, exactly when the pid is below 1
    or in no slot, and a failed [deletejob] changes nothing at all. *)
Theorem deletejob_missing sh p :
  (fst (deletejob sh p) = 0 ↔ p < 1 ∨ absent p (jobs sh)) ∧
  (fst (deletejob sh p) = 0 → snd (deletejob sh p) = sh) ∧
  (fst (deletejob sh p) = 0 ∨ fst (deletejob sh p) = 1).
Proof.
  unfold deletejob, absent. destruct (Z.ltb_spec p 1) as [Hlt|Hge]; simpl.
  { split_and!; [split; [by left | done] | done | by left]. }
  destruct (scan _ (jobs sh)) as [i|] eqn:Hs; simpl.
  - split_and!; [split; [done|] | done | by right].
    intros [? | H]; [lia|]. apply scan_Some in Hs as (job & Hi & Ht & _).
    specialize (H i job Hi). lia.
  - split_and!; [split; [intros _ | done] | done | by left].
    right. intros i job Hi Heq. rewrite scan_None in Hs.
    specialize (Hs i job Hi). simpl in Hs. lia.
Qed.

(** X7.  [addjob] fails, returning 0, exactly when the pid is below 1 or
    no slot is free.  For a pid below 1 nothing changes and nothing is
    printed; on a full list the list and [nextjid] are unchanged and the
    one line "Tried to create too many jobs" goes to stdout. *)
Theorem addjob_refused sh p st cl :
  (fst (addjob sh p st cl) = 0 ↔ p < 1 ∨ full (jobs sh)) ∧
  (p < 1 → snd (addjob sh p st cl) = sh) ∧
  (1 ≤ p → full (jobs sh) →
   jobs (snd (addjob sh p st cl)) = jobs sh ∧
   nextjid (snd (addjob sh p st cl)) = nextjid sh ∧
   out (snd (addjob sh p st cl))
   = out sh ++ [Stdout (String.append "Tried to create too many jobs" nl)]).
Proof.
  unfold addjob, full. destruct (Z.ltb_spec p 1) as [Hlt|Hge]; simpl.
  { split_and!; [split; [by left | done] | done | lia]. }
  destruct (scan _ (jobs sh)) as [i|] eqn:Hs; simpl.
  - split_and!; [split; [done | intros [?|?]; [lia | done]] | lia | done].
  - split_and!; [split; [by right | done] | lia | done].
Qed.

Lemma no_fg_fgpid (l : list job_t) : no_fg l → fgpid l = 0.
Proof.
  intros Hno. pose proof (scan_fg l) as Hs.
  destruct (scan _ l) as [i|]; [|by destruct Hs].
  destruct Hs as (job & Hi & Hf & _). by destruct (Hno i job Hi).
Qed.

(** X8.  [fgpid] is 0 when no slot is in the foreground, and when the
    foreground slot is the only one it is that slot's pid. *)
Theorem fgpid_foreground (l : list job_t) :
  (no_fg l → fgpid l = 0) ∧
  (at_most_one_fg l →
   ∀ i job, l !! i = Some job → state job = FG → fgpid l = pid job).
Proof.
  pose proof (scan_fg l) as Hs. split; [apply no_fg_fgpid|].
  intros Hone i job Hi Hf. destruct (scan _ l) as [i'|].
  - destruct Hs as (job' & Hi' & Hf' & ->).
    assert (i' = i) as -> by (by apply (Hone i' i job' job)). congruence.
  - destruct Hs as (Hno & _). by destruct (Hno i job Hi).
Qed.

(** X9.  After [initjobs] the list is empty, whatever it held: every
    lookup by pid or jid fails, [maxjid] and [fgpid] are 0, and a list
    with at least one slot is not full. *)
Theorem initjobs_empty (l : list job_t) :
  (∀ p, getjobpid (initjobs l) p = None) ∧
  (∀ j, getjobjid (initjobs l) j = None) ∧
  (∀ p, pid2jid (initjobs l) p = 0) ∧
  maxjid (initjobs l) = 0 ∧ fgpid (initjobs l) = 0 ∧
  length (initjobs l) = length l ∧
  (l ≠ [] → ¬ full (initjobs l)).
Proof.
  assert (∀ k job, initjobs l !! k = Some job → job = mkjob 0 0 UNDEF "") as Hc.
  { intros k job. unfold initjobs. rewrite list_lookup_fmap, fmap_Some.
    by intros (x & _ & ->). }
  split_and!.
  - intros p. unfold getjobpid. destruct (Z.ltb_spec p 1); [done|].
    apply scan_None. intros k job ->%Hc. apply Z.eqb_neq. simpl. lia.
  - intros j. unfold getjobjid. destruct (Z.ltb_spec j 1); [done|].
    apply scan_None. intros k job ->%Hc. apply Z.eqb_neq. simpl. lia.
  - intros p. unfold pid2jid. destruct (Z.ltb_spec p 1); [done|].
    assert (scan (fun job => pid job =? p) (initjobs l) = None) as ->; [|done].
    apply scan_None. intros k job ->%Hc. apply Z.eqb_neq. simpl. lia.
  - destruct (maxjid_fold_attained (initjobs l) 0) as [|(k & job & Hk & Hj)]; [done|].
    unfold maxjid. rewrite <- Hj. by rewrite (Hc k job Hk).
  - apply no_fg_fgpid. intros k job ->%Hc. done.
  - unfold initjobs. apply length_fmap.
  - intros Hne. unfold full. destruct l as [|a l']; [done|]. done.
Qed.

(** * Further properties of the handlers *)

Lemma alter_clear_after_ST (l : list job_t) i :
  alter clearjob i (alter (set_state ST) i l) = alter clearjob i l.
Proof.
  apply list_eq. intros k. destruct (decide (i = k)) as [->|Hne].
  - rewrite !list_lookup_alter_eq. by destruct (l !! k).
  - by rewrite !list_lookup_alter_ne.
Qed.

Lemma deletejob_after_ST sh p i :
  getjobpid (jobs sh) p = Some i →
  deletejob (with_jobs (alter (set_state ST) i (jobs sh)) sh) p
  = (1, with_nextjid (maxjid (alter clearjob i (jobs sh)) + 1)
          (with_jobs (alter clearjob i (jobs sh)) sh)).
Proof.
  intros Hg. unfold getjobpid in Hg. destruct (Z.ltb_spec p 1) as [|Hp]; [done|].
  rewrite (deletejob_Some _ p i); [|done|].
  - simpl. by rewrite alter_clear_after_ST.
  - simpl. rewrite <- Hg. by apply scan_alter_same.
Qed.

Lemma chld_reaps_tracked sh p status rest none i :
  getjobpid (jobs sh) p = Some i →
  ∃ sh',
    sigchld_handler (mkkernel ((p, status) :: rest) none) sh
    = Ret (mkkernel rest none, sh') ∧
    errno sh' = errno sh ∧ out sh' = out sh ∧
    if WTERMSIG status =? SIGINT then
      flag sh' = INTR ∧ jobs sh' = alter clearjob i (jobs sh) ∧
      nextjid sh' = maxjid (jobs sh') + 1
    else if WIFSTOPPED status then
      flag sh' = TSTP ∧ jobs sh' = alter (set_state ST) i (jobs sh) ∧
      nextjid sh' = nextjid sh
    else
      flag sh' = EXIT ∧ jobs sh' = alter clearjob i (jobs sh) ∧
      nextjid sh' = maxjid (jobs sh') + 1.
Proof.
  intros Hg. pose proof (getjobpid_Some _ _ _ Hg) as (Hp & _).
  unfold sigchld_handler. simpl. destruct (Z.gtb_spec p 0); [|lia].
  unfold chld_body. simpl. rewrite Hg.
  destruct (WTERMSIG status =? SIGINT); [|destruct (WIFSTOPPED status)].
  - pose proof (deletejob_after_ST (with_flag INTR (with_sigmask
                  (Z.lor (sigmask sh) intr_set) sh)) p i Hg) as Hd.
    simpl in Hd. unfold with_jobs, with_flag in *. simpl in *. rewrite Hd.
    eexists. split; [reflexivity|]. done.
  - eexists. split; [reflexivity|]. done.
  - pose proof (deletejob_after_ST (with_flag EXIT (with_sigmask
                  (Z.lor (sigmask sh) intr_set) sh)) p i Hg) as Hd.
    simpl in Hd. unfold with_jobs, with_flag in *. simpl in *. rewrite Hd.
    eexists. split; [reflexivity|]. done.
Qed.

(** X10.  What one run of the SIGCHLD handler does for a reaped child that
    is in the list, by the kind of status: killed by SIGINT, the job's slot
    is cleared, [nextjid] is reset above the largest jid left and [flag] is
    INTR; stopped, the job stays with state ST and [flag] is TSTP; any
    other end (an exit, or a kill by another signal), the slot is cleared
    and [flag] is EXIT.  Nothing is printed and errno is as before. *)
Theorem sigchld_handler_tracked sh p status rest none i :
  getjobpid (jobs sh) p = Some i →
  ∃ sh',
    sigchld_handler (mkkernel ((p, status) :: rest) none) sh
    = Ret (mkkernel rest none, sh') ∧
    errno sh' = errno sh ∧ out sh' = out sh ∧
    if WTERMSIG status =? SIGINT then
      flag sh' = INTR ∧ jobs sh' = alter clearjob i (jobs sh) ∧
      nextjid sh' = maxjid (jobs sh') + 1
    else if WIFSTOPPED status then
      flag sh' = TSTP ∧ jobs sh' = alter (set_state ST) i (jobs sh) ∧
      nextjid sh' = nextjid sh
    else
      flag sh' = EXIT ∧ jobs sh' = alter clearjob i (jobs sh) ∧
      nextjid sh' = maxjid (jobs sh') + 1.
Proof. apply chld_reaps_tracked. Qed.

(** Job 11 of three is stopped by SIGTSTP. *)
Lemma sigchld_handler_tracked_witness :
  ∃ sh',
    sigchld_handler (mkkernel [(11, W_STOPPED_TSTP)] false) three_jobs
    = Ret (mkkernel [] false, sh') ∧
    errno sh' = errno three_jobs ∧ out sh' = out three_jobs ∧
    if WTERMSIG W_STOPPED_TSTP =? SIGINT then
      flag sh' = INTR ∧ jobs sh' = alter clearjob 0%nat (jobs three_jobs) ∧
      nextjid sh' = maxjid (jobs sh') + 1
    else if WIFSTOPPED W_STOPPED_TSTP then
      flag sh' = TSTP ∧ jobs sh' = alter (set_state ST) 0%nat (jobs three_jobs) ∧
      nextjid sh' = nextjid three_jobs
    else
      flag sh' = EXIT ∧ jobs sh' = alter clearjob 0%nat (jobs three_jobs) ∧
      nextjid sh' = maxjid (jobs sh') + 1.
Proof.
  apply (sigchld_handler_tracked three_jobs 11 W_STOPPED_TSTP [] false 0%nat).
  reflexivity.
Defined.

(** X11.  A SIGCHLD with nothing to reap is transparent: whether waitpid
    returns 0 or fails with ECHILD, the handler returns with every global,
    errno and the signal mask exactly as it found them. *)
Theorem sigchld_handler_spurious none sh :
  sigchld_handler (mkkernel [] none) sh = Ret (mkkernel [] none, sh).
Proof. destruct sh. unfold sigchld_handler. simpl. by destruct none. Qed.

(** X12.  The handler dereferences NULL exactly when the child that
    waitpid reports first is not in the job list. *)
Theorem sigchld_handler_faults k sh :
  sigchld_handler k sh = Fault ↔
  ∃ p status rest, waitable k = (p, status) :: rest ∧ 0 < p ∧
                   getjobpid (jobs sh) p = None.
Proof.
  unfold sigchld_handler. destruct (waitable k) as [|[p status] rest]; simpl.
  { split; [done | by intros (? & ? & ? & ? & _)]. }
  destruct (Z.gtb_spec p 0) as [Hp|Hp].
  - unfold chld_body. simpl. destruct (getjobpid (jobs sh) p) eqn:Hg.
    + split; [|intros (? & ? & ? & [= <- <- <-] & _ & ?); congruence].
      by destruct (_ =? _); [|destruct (WIFSTOPPED _)].
    + split; [intros _ | done]. by exists p, status, rest.
  - split; [done | intros (? & ? & ? & [= <- <- <-] & ? & _); lia].
Qed.

(** * Further invariants of the running shell *)

Lemma wf_job_set_state st job :
  st = FG ∨ st = BG ∨ st = ST → wf_job job → wf_job (set_state st job).
Proof. intros Hst (H0 & Hz & Hp). split_and!; simpl; [done | done | tauto]. Qed.

Lemma wf_alter_state st i l n :
  st = FG ∨ st = BG ∨ st = ST →
  wf_shell (mkshell l n 0 0 0 0 []) →
  wf_shell (mkshell (alter (set_state st) i l) n 0 0 0 0 []).
Proof.
  intros Hst (Hlen & Hn & Hjobs & Hd). unfold wf_shell. simpl in *.
  split_and!; [by rewrite length_alter | done | |].
  - intros k job (x & Hx & [[-> ->] | [_ ->]])%lookup_alter_Some; [|by eapply Hjobs].
    apply wf_job_set_state; [done | by eapply Hjobs].
  - intros i1 i2 j1 j2 (x1 & Hx1 & Hc1)%lookup_alter_Some
      (x2 & Hx2 & Hc2)%lookup_alter_Some Heq Hne.
    apply (Hd i1 i2 x1 x2); [done | done | |];
      destruct Hc1 as [[-> ->] | [_ ->]], Hc2 as [[-> ->] | [_ ->]]; done.
Qed.

Lemma wf_alter_clear i l n n' :
  1 ≤ n' →
  wf_shell (mkshell l n 0 0 0 0 []) →
  wf_shell (mkshell (alter clearjob i l) n' 0 0 0 0 []).
Proof.
  intros Hn' (Hlen & Hn & Hjobs & Hd). unfold wf_shell. simpl in *.
  split_and!; [by rewrite length_alter | done | |].
  - intros k job (x & Hx & [[-> ->] | [_ ->]])%lookup_alter_Some; [|by eapply Hjobs].
    split_and!; simpl; [done | done | lia].
  - intros i1 i2 j1 j2 (x1 & Hx1 & Hc1)%lookup_alter_Some
      (x2 & Hx2 & Hc2)%lookup_alter_Some Heq Hne.
    destruct Hc1 as [[-> ->] | [_ ->]]; [done|].
    destruct Hc2 as [[-> ->] | [_ ->]]; [by rewrite Heq in Hne|].
    by apply (Hd i1 i2 x1 x2).
Qed.

(** Well-formedness only looks at the list and at [nextjid]. *)
Lemma wf_shell_frame s s' :
  jobs s' = jobs s → nextjid s' = nextjid s → wf_shell s → wf_shell s'.
Proof. unfold wf_shell. by intros -> ->. Qed.

Lemma wf_shell_core s :
  wf_shell s ↔ wf_shell (mkshell (jobs s) (nextjid s) 0 0 0 0 []).
Proof. done. Qed.

Lemma wf_deletejob sh p : wf_shell sh → wf_shell (snd (deletejob sh p)).
Proof.
  intros Hwf. unfold deletejob. destruct (p <? 1); [done|].
  destruct (scan _ (jobs sh)) as [i|]; [|done]. simpl.
  apply wf_shell_core. simpl.
  apply (wf_alter_clear i (jobs sh) (nextjid sh)); [|by apply wf_shell_core].
  pose proof (maxjid_fold_ge (alter clearjob i (jobs sh)) 0). unfold maxjid. lia.
Qed.

Lemma wf_addjob sh p st cl :
  st = FG ∨ st = BG ∨ st = ST → absent p (jobs sh) →
  wf_shell sh → wf_shell (snd (addjob sh p st cl)).
Proof.
  intros Hst Habs Hwf. destruct (Z.ltb_spec p 1) as [Hlt|Hp].
  { unfold addjob. by destruct (Z.ltb_spec p 1); [|lia]. }
  destruct (scan (fun job => pid job =? 0) (jobs sh)) as [i|] eqn:Hs.
  - destruct (addjob_Some sh p st cl i Hp Hs) as (_ & Hj & Hn).
    destruct Hwf as (Hlen & Hnext & Hjobs & Hd). unfold wf_shell.
    rewrite Hj, Hn. split_and!.
    + by rewrite length_insert.
    + destruct (_ >? _); lia.
    + intros k job [(-> & <- & _) | (_ & Hk)]%list_lookup_insert_Some;
        [|by eapply Hjobs].
      split_and!; simpl; [lia | lia | intros _; split; [lia | done]].
    + intros i1 i2 j1 j2 H1%list_lookup_insert_Some H2%list_lookup_insert_Some Heq Hne.
      destruct H1 as [(-> & <- & _) | (Hn1 & H1)], H2 as [(-> & <- & _) | (Hn2 & H2)].
      * done.
      * simpl in Heq. by destruct (Habs i2 j2 H2).
      * simpl in Heq. by destruct (Habs i1 j1 H1).
      * by apply (Hd i1 i2 j1 j2).
  - rewrite addjob_full by done. by apply (wf_shell_frame sh).
Qed.

Lemma wf_chld_body p status sh sh' :
  chld_body p status sh = Return sh' → wf_shell sh → wf_shell sh'.
Proof.
  unfold chld_body. destruct (getjobpid _ _) as [i|]; [|done]. intros Hr Hwf.
  assert (wf_shell (with_jobs (alter (set_state ST) i (jobs sh)) sh)) as Hst.
  { apply wf_shell_core. simpl. apply wf_alter_state; [tauto | by apply wf_shell_core]. }
  revert Hr. destruct (_ =? _); [|destruct (WIFSTOPPED _)]; intros [= <-].
  - apply wf_deletejob. eapply wf_shell_frame; [| |exact Hst]; done.
  - eapply wf_shell_frame; [| |exact Hst]; done.
  - apply wf_deletejob. eapply wf_shell_frame; [| |exact Hst]; done.
Qed.

Lemma wf_chld_while ws none olderrno prev sh k' sh' :
  chld_while ws none olderrno prev sh = Ret (k', sh') →
  wf_shell sh → wf_shell sh'.
Proof.
  revert sh. induction ws as [|[p status] rest IH]; intros sh; simpl.
  - intros [= _ <-]. by destruct none.
  - destruct (p >? 0); [|by intros [= _ <-]].
    destruct (chld_body p status sh) as [sh1|sh1|] eqn:Hb; [| |done].
    + by apply chld_body_returns in Hb.
    + intros [= _ <-]. by apply (wf_chld_body p status sh).
Qed.

Lemma wf_sigchld_handler k sh k' sh' :
  sigchld_handler k sh = Ret (k', sh') → wf_shell sh → wf_shell sh'.
Proof.
  unfold sigchld_handler. intros H Hwf. apply wf_chld_while in H; [done|].
  by apply (wf_shell_frame sh).
Qed.

(** What a statement of the mainline may do to the list and to [nextjid]:
    nothing, unless it is the [addjob] of eval or one of the two state
    stores of do_bgfg. *)
Lemma tick_frame c s c' s' :
  tick c s = Some (c', s') →
  (jobs s' = jobs s ∧ nextjid s' = nextjid s) ∨
  (∃ cl fginit prev p, c = EvAdd cl fginit prev p) ∨
  (∃ st i, (st = FG ∨ st = BG) ∧
           jobs s' = alter (set_state st) i (jobs s) ∧ nextjid s' = nextjid s).
Proof.
  unfold tick. destruct (eval_tick c s) as [r|] eqn:He.
  { intros [= ->]. destruct c; simpl in He; try discriminate.
    - injection He as <- <-. by left.
    - right. left. eauto.
    - injection He as <- <-. by left.
    - destruct (getjobpid _ _) as [i|]; [destruct (jobs s !! i)|];
        injection He as <- <-; by left.
    - destruct (jobs s !! job) as [x|]; [destruct (state x =? FG)|];
        injection He as <- <-; by left.
    - destruct (jobs s !! job); injection He as <- <-; by left. }
  destruct (waitfg_tick c s) as [r|] eqn:Hw.
  { intros [= ->]. destruct c; simpl in Hw; try discriminate.
    - destruct (getjobpid _ _) as [i|]; [destruct (jobs s !! i)|];
        injection Hw as <- <-; by left.
    - destruct (_ =? _); injection Hw as <- <-; by left.
    - destruct (_ =? _); injection Hw as <- <-; by left.
    - destruct (_ =? _); [|destruct (_ =? _)]; injection Hw as <- <-; by left. }
  intros Hb. destruct c; simpl in Hb; try discriminate;
    try (injection Hb as <- <-; by left).
  - destruct argv as [|argv0 args]; [injection Hb as <- <-; by left|].
    destruct ((argv0 :: args) !! 1%nat) as [a1|]; [|injection Hb as <- <-; by left].
    destruct (strncmp0 a1 "%" 1).
    + pose proof (strtol_int_frame
                    (match a1 with String _ r => r | EmptyString => a1 end) s)
        as (Hj & _ & Hn & _).
      destruct (strtol_int _ s) as [myjid s1]. injection Hb as <- <-. by left.
    + pose proof (strtol_int_frame a1 s) as (Hj & _ & Hn & _).
      destruct (strtol_int a1 s) as [mypid s1].
      destruct (negb _ && _); injection Hb as <- <-; by left.
  - destruct (_ >? _); injection Hb as <- <-; by left.
  - destruct myjob as [i|]; [destruct (jobs s !! i)|]; injection Hb as <- <-; by left.
  - destruct (getjobpid _ _); injection Hb as <- <-; by left.
  - destruct myjob as [i|]; [destruct (jobs s !! i)|]; injection Hb as <- <-; by left.
  - destruct (jobs s !! myjob) as [x|]; [destruct (state x =? FG)|];
      injection Hb as <- <-; by left.
  - destruct (strncmp0 argv0 "fg" 2); [|destruct (strncmp0 argv0 "bg" 2)];
      injection Hb as <- <-; by left.
  - injection Hb as <- <-. right. right. exists FG, myjob. auto.
  - injection Hb as <- <-. right. right. exists BG, myjob. auto.
  - destruct (jobs s !! myjob); injection Hb as <- <-; by left.
Qed.

Lemma nextjid_listjobs_from i js sh : nextjid (listjobs_from i js sh) = nextjid sh.
Proof.
  revert i sh. induction js as [|job rest IH]; intros i sh; simpl; [done|].
  rewrite IH. destruct (pid job =? 0); [done|].
  by destruct (state job =? BG), (state job =? FG), (state job =? ST).
Qed.

Lemma step_wf l m m' :
  step l m = Some m' → fg_inv m → wf_shell (sh m) → wf_shell (sh m').
Proof.
  destruct m as [c s]. destruct l; simpl.
  - destruct c; try discriminate. by intros [= <-].
  - destruct c; try discriminate. intros [= <-] _. by apply wf_shell_frame.
  - destruct c; try discriminate.
    destruct cmd; intros [= <-] _; simpl; apply wf_shell_frame; try done.
    + unfold listjobs. by rewrite jobs_listjobs_from.
    + unfold listjobs. by rewrite nextjid_listjobs_from.
  - destruct c; try discriminate. destruct (getjobpid _ _); [discriminate|].
    destruct (0 <? p); [|discriminate]. by intros [= <-].
  - destruct c; try discriminate. intros [= <-] _. by apply wf_shell_frame.
  - destruct (tick c s) as [[c1 s1]|] eqn:Ht; [|discriminate].
    intros [= <-] Hinv Hwf. simpl in *.
    destruct (tick_frame _ _ _ _ Ht)
      as [[Hj Hn] | [(cl & fginit & prev & p & ->) | (st & i & Hst & Hj & Hn)]].
    + by apply (wf_shell_frame s).
    + unfold tick in Ht. simpl in Ht. injection Ht as _ <-.
      destruct Hinv as (_ & _ & _ & Habs). apply wf_addjob; [|done|done].
      destruct fginit; tauto.
    + apply wf_shell_core. rewrite Hj, Hn.
      apply wf_alter_state; [tauto | by apply wf_shell_core].
  - destruct (deliver _ _); [|discriminate].
    destruct (sigchld_handler k s) as [[k' s']|] eqn:Hh; intros [= <-] _ Hwf; [|done].
    simpl in *. apply (wf_shell_frame s'); [done | done |].
    by apply (wf_sigchld_handler k s k').
  - destruct (deliver _ _); [|discriminate]. intros [= <-] _. simpl.
    apply wf_shell_frame; unfold sigint_handler; by destruct (_ =? _).
  - destruct (deliver _ _); [|discriminate]. intros [= <-] _. simpl.
    apply wf_shell_frame; unfold sigtstp_handler; by destruct (_ =? _).
  - destruct (deliver _ _); [|discriminate]. intros [= <-] _. by apply wf_shell_frame.
Qed.

Lemma boot_wf v : wf_shell (shell0 v).
Proof.
  assert (∀ k job, initjobs jobs0 !! k = Some job → job = mkjob 0 0 UNDEF "") as Hc.
  { intros k job. unfold initjobs. rewrite list_lookup_fmap, fmap_Some.
    by intros (x & _ & ->). }
  split_and!; [done | done | |].
  - intros i job ->%Hc. split_and!; simpl; [done | done | lia].
  - intros i1 i2 j1 j2 ->%Hc _ _ Hne. done.
Qed.

Lemma reachable_wf m : reachable m → wf_shell (sh m).
Proof.
  induction 1 as [v | l m m' Hm IH Hstep]; [apply boot_wf|].
  eapply step_wf; [done | by apply reachable_fg_inv | done].
Qed.

(** X13.  In every state the shell can reach the job list has its sixteen
    slots, [nextjid] is at least 1, every slot is free (pid 0 and jid 0)
    or holds a job with a positive pid, a positive jid and a state among
    FG, BG and ST, and no two slots hold the same pid. *)
Theorem job_list_well_formed m : reachable m → wf_shell (sh m).
Proof. apply reachable_wf. Qed.

(** After three background launches and the end of job 12. *)
Lemma job_list_well_formed_witness :
  reachable (after gap_in_jids) ∧ wf_shell (sh (after gap_in_jids)).
Proof.
  assert (reachable (after gap_in_jids)) as Hr.
  { apply (exec_reachable gap_in_jids (boot 0)); [apply reach_boot | by vm_compute]. }
  split; [exact Hr|]. apply (job_list_well_formed (after gap_in_jids)). exact Hr.
Defined.

(** X14.  Whenever the shell is at its prompt, no slot of the job list is
    in the foreground state, and [fgpid] is 0. *)
Theorem prompt_without_foreground m :
  reachable m → ctl m = Prompt →
  no_fg (jobs (sh m)) ∧ fgpid (jobs (sh m)) = 0.
Proof.
  intros Hm%reachable_fg_inv Hc. destruct m as [c s]. simpl in Hc. subst c.
  destruct Hm as (_ & Hno). simpl in *. split; [done | by apply no_fg_fgpid].
Qed.

(** Back at the prompt after sixteen background launches. *)
Lemma prompt_without_foreground_witness :
  reachable (after fill_table) ∧
  no_fg (jobs (sh (after fill_table))) ∧ fgpid (jobs (sh (after fill_table))) = 0.
Proof.
  split; [apply fill_table_reachable|].
  apply (prompt_without_foreground (after fill_table));
    [apply fill_table_reachable | by vm_compute].
Defined.

(** X15.  While the shell runs, SIGINT, SIGTSTP and SIGQUIT are never
    blocked in the mainline, and SIGCHLD is blocked exactly between the
    fork of eval and its restore of the mask. *)
Theorem signals_deliverable m :
  reachable m → terminal (ctl m) = false →
  deliver SIGINT m = true ∧ deliver SIGTSTP m = true ∧ deliver SIGQUIT m = true ∧
  deliver SIGCHLD m = negb (in_launch_window (ctl m)).
Proof.
  intros Hm%reachable_mask_inv Ht. destruct m as [c s].
  unfold deliver, mask_inv in *. simpl in *. rewrite Ht. simpl.
  destruct c; try discriminate; simpl in *;
    repeat match goal with H : _ ∧ _ |- _ => destruct H as [? H] end;
    match goal with H : sigmask s = _ |- _ => rewrite H end; done.
Qed.

(** While waitfg polls for a foreground job. *)
Lemma signals_deliverable_witness :
  reachable (after launch_fg_waiting) ∧
  deliver SIGINT (after launch_fg_waiting) = true ∧
  deliver SIGTSTP (after launch_fg_waiting) = true ∧
  deliver SIGQUIT (after launch_fg_waiting) = true ∧
  deliver SIGCHLD (after launch_fg_waiting)
  = negb (in_launch_window (ctl (after launch_fg_waiting))).
Proof.
  assert (reachable (after launch_fg_waiting)) as Hr.
  { apply (exec_reachable launch_fg_waiting (boot 0)); [apply reach_boot | reflexivity]. }
  split; [exact Hr|].
  apply (signals_deliverable (after launch_fg_waiting)); [exact Hr | reflexivity].
Defined.

(** X16.  A run of the SIGINT or SIGTSTP handler that no other handler
    interrupts and whose [kill], if any, succeeds.  The two handlers run
    the same code: they leave the globals alone and send at most one
    signal, the one they received, to the process group of a job that is
    in the foreground; the target is never 0 (the shell's own group) and
    never a single process.  A foreground job with a nonzero pid does get
    the signal. *)
Theorem relay_to_foreground_group m sig :
  reachable m →
  let s := sh m in
  sigtstp_handler sig s = sigint_handler sig s ∧
  (sigint_handler sig s = s ∨
   ∃ i job, jobs s !! i = Some job ∧ state job = FG ∧ 0 < pid job ∧
            sigint_handler sig s = kill (- pid job) sig s) ∧
  (∀ i job, jobs s !! i = Some job → state job = FG → pid job ≠ 0 →
            sigint_handler sig s = kill (- pid job) sig s).
Proof.
  intros Hm. pose proof (reachable_wf m Hm) as (_ & _ & Hjobs & _).
  pose proof (reachable_fg_inv m Hm) as (Hone & _). simpl.
  split; [done|]. unfold sigint_handler.
  pose proof (scan_fg (jobs (sh m))) as Hs.
  destruct (scan _ (jobs (sh m))) as [i|].
  - destruct Hs as (job & Hi & Hf & ->). split.
    + destruct (Z.eqb_spec (pid job) 0) as [Hz|Hnz]; [by left|]. right.
      exists i, job. split_and!; [done | done | | done].
      destruct (Hjobs i job Hi) as (H0 & _). lia.
    + intros k job' Hk Hf' Hnz.
      assert (k = i) as -> by (by apply (Hone k i job' job)).
      assert (job' = job) as -> by congruence.
      by destruct (Z.eqb_spec (pid job) 0).
  - destruct Hs as (Hno & ->). simpl. split; [by left|].
    intros k job Hk Hf. by destruct (Hno k job Hk).
Qed.

(** Ctrl-C while waitfg polls for the foreground job 5. *)
Lemma relay_to_foreground_group_witness :
  let s := sh (after launch_fg_waiting) in
  sigtstp_handler SIGINT s = sigint_handler SIGINT s ∧
  (sigint_handler SIGINT s = s ∨
   ∃ i job, jobs s !! i = Some job ∧ state job = FG ∧ 0 < pid job ∧
            sigint_handler SIGINT s = kill (- pid job) SIGINT s) ∧
  (∀ i job, jobs s !! i = Some job → state job = FG → pid job ≠ 0 →
            sigint_handler SIGINT s = kill (- pid job) SIGINT s).
Proof.
  apply (relay_to_foreground_group (after launch_fg_waiting) SIGINT).
  apply (exec_reachable launch_fg_waiting (boot 0)); [apply reach_boot | reflexivity].
Defined.

Lemma listjobs_from_lines i (js : list job_t) sh :
  (∀ k job, js !! k = Some job → pid job ≠ 0 → state job = BG ∨ state job = ST) →
  out (listjobs_from i js sh)
  = out sh ++ mjoin (job_lines <$> filter (λ job, pid job ≠ 0) js).
Proof.
  revert i sh. induction js as [|job rest IH]; intros i sh Hst; simpl.
  { by rewrite app_nil_r. }
  rewrite IH by (intros k; apply (Hst (S k))).
  rewrite filter_cons. destruct (Z.eqb_spec (pid job) 0) as [Hz|Hnz].
  - by rewrite decide_False by tauto.
  - rewrite decide_True by done. simpl.
    destruct (Hst 0%nat job eq_refl Hnz) as [Hs|Hs]; rewrite Hs; simpl;
      by rewrite <- !app_assoc.
Qed.

(** X17.  The jobs command at the prompt, when no signal arrives while
    [listjobs] runs: it prints, for each slot with a nonzero pid and in
    slot order, "[jid] (pid) " then "Running " or "Stopped " then the
    command line; it prints neither "Foreground " nor an internal error,
    and changes neither the list nor [nextjid]. *)
Theorem jobs_at_prompt m :
  reachable m → ctl m = Prompt →
  let s := sh m in
  out (listjobs (jobs s) s)
  = out s ++ mjoin (job_lines <$> filter (λ job, pid job ≠ 0) (jobs s)) ∧
  jobs (listjobs (jobs s) s) = jobs s ∧
  nextjid (listjobs (jobs s) s) = nextjid s.
Proof.
  intros Hm Hc. simpl. unfold listjobs.
  rewrite jobs_listjobs_from, nextjid_listjobs_from. split; [|done].
  apply listjobs_from_lines. intros k job Hk Hnz.
  pose proof (reachable_wf m Hm) as (_ & _ & Hjobs & _).
  destruct (Hjobs k job Hk) as (H0 & _ & Hlive).
  destruct Hlive as (_ & [Hf | ?]); [lia | | done].
  pose proof (reachable_fg_inv m Hm) as Hinv. destruct m as [c s].
  simpl in *. subst c. destruct Hinv as (_ & Hno). by destruct (Hno k job Hk).
Qed.

(** The jobs command after three launches and the end of job 12. *)
Lemma jobs_at_prompt_witness :
  let s := sh (after gap_in_jids) in
  out (listjobs (jobs s) s)
  = out s ++ mjoin (job_lines <$> filter (λ job, pid job ≠ 0) (jobs s)) ∧
  jobs (listjobs (jobs s) s) = jobs s ∧
  nextjid (listjobs (jobs s) s) = nextjid s.
Proof.
  apply (jobs_at_prompt (after gap_in_jids)); [|by vm_compute].
  apply (exec_reachable gap_in_jids (boot 0)); [apply reach_boot | by vm_compute].
Defined.

(** * Commands that run undisturbed *)

Lemma mainline_step n c s c' s' :
  tick c s = Some (c', s') → mainline (S n) c s = mainline n c' s'.
Proof. intros H. simpl. by rewrite H. Qed.

Lemma mainline_stop n s : mainline n Prompt s = (Prompt, s).
Proof. by destruct n. Qed.

Lemma getjobpid_insert_new (l : list job_t) i p new :
  0 < p → (i < length l)%nat → absent p l → pid new = p →
  getjobpid (<[i := new]> l) p = Some i.
Proof.
  intros Hp Hlt Habs Hnew. unfold getjobpid. destruct (Z.ltb_spec p 1); [lia|].
  apply scan_Some. exists new. split_and!; [by apply list_lookup_insert_eq | lia |].
  intros k job' Hk Hjob'. rewrite list_lookup_insert_ne in Hjob' by lia.
  specialize (Habs k job' Hjob'). lia.
Qed.

Lemma fgpid_only (l : list job_t) i job :
  l !! i = Some job → state job = FG → fg_within i l → fgpid l = pid job.
Proof.
  intros Hi Hf Hin. pose proof (scan_fg l) as Hs.
  destruct (scan _ l) as [i'|].
  - destruct Hs as (job' & Hi' & Hf' & ->).
    assert (i' = i) as -> by (by apply (Hin i' job')). congruence.
  - destruct Hs as (Hno & _). by destruct (Hno i job Hi).
Qed.

Lemma insert_fg_within (l : list job_t) i new :
  no_fg l → fg_within i (<[i := new]> l).
Proof.
  intros Hno k job [(-> & _) | (_ & Hk)]%list_lookup_insert_Some; [done|].
  intros Hf. by destruct (Hno k job Hk).
Qed.

(** Single statements, on any globals. *)
Lemma tick_EvLookup p s i job :
  getjobpid (jobs s) p = Some i → jobs s !! i = Some job →
  tick (EvLookup p) s = Some (EvBranch p i (jid job), s).
Proof. intros Hg Hi. unfold tick. simpl. by rewrite Hg, Hi. Qed.

Lemma tick_EvBranch p i j s job :
  jobs s !! i = Some job →
  tick (EvBranch p i j) s
  = Some (if state job =? FG then WfLookup p else EvPrint p i j, s).
Proof. intros Hi. unfold tick. simpl. rewrite Hi. by destruct (_ =? _). Qed.

Lemma tick_EvPrint p i j s job :
  jobs s !! i = Some job →
  tick (EvPrint p i j) s
  = Some (Prompt, printf "[%d] (%d) %s" [D j; D p; S_ (cmdline job)] s).
Proof. intros Hi. unfold tick. simpl. by rewrite Hi. Qed.

Lemma tick_WfLookup p s i job :
  getjobpid (jobs s) p = Some i → jobs s !! i = Some job →
  tick (WfLookup p) s = Some (WfCheck p (jid job), s).
Proof. intros Hg Hi. unfold tick. simpl. by rewrite Hg, Hi. Qed.

Lemma tick_WfCheck p j s :
  fgpid (jobs s) ≠ 0 → tick (WfCheck p j) s = Some (WfLoop p j, s).
Proof. intros Hf. unfold tick. simpl. by destruct (Z.eqb_spec (fgpid (jobs s)) 0). Qed.

Lemma tick_WfLoop_exit p j s :
  fgpid (jobs s) ≠ p → tick (WfLoop p j) s = Some (WfReport p j, s).
Proof. intros Hf. unfold tick. simpl. by destruct (Z.eqb_spec p (fgpid (jobs s))). Qed.

(** The tail of a launch, from addjob to eval's test of the job state. *)
Lemma launch_to_branch s cl fginit prev p i :
  0 < p → absent p (jobs s) →
  scan (fun job => pid job =? 0) (jobs s) = Some i →
  let st := if fginit : bool then FG else BG in
  let sa := with_sigmask prev (snd (addjob s p st cl)) in
  ∀ n, mainline (3 + n) (EvAdd cl fginit prev p) s
       = mainline n (EvBranch p i (nextjid s)) sa ∧
       jobs sa = <[i := mkjob p (nextjid s) st cl]> (jobs s) ∧
       jobs sa !! i = Some (mkjob p (nextjid s) st cl) ∧
       getjobpid (jobs sa) p = Some i ∧
       out sa = out (snd (addjob s p st cl)).
Proof.
  intros Hp Habs Hs st sa n.
  destruct (addjob_Some s p st cl i ltac:(lia) Hs) as (_ & Hj & _).
  pose proof (scan_lt _ _ _ Hs) as Hlt.
  assert (jobs sa = <[i := mkjob p (nextjid s) st cl]> (jobs s)) as Hja by done.
  assert (jobs sa !! i = Some (mkjob p (nextjid s) st cl)) as Hi.
  { rewrite Hja. by apply list_lookup_insert_eq. }
  assert (getjobpid (jobs sa) p = Some i) as Hg.
  { rewrite Hja. by apply getjobpid_insert_new. }
  split_and!; [|done..].
  change (3 + n)%nat with (S (S (S n))).
  rewrite (mainline_step _ _ _ (EvRestore prev p) (snd (addjob s p st cl))) by done.
  rewrite (mainline_step _ _ _ (EvLookup p) sa) by done.
  apply mainline_step. by rewrite (tick_EvLookup p sa i _ Hg Hi).
Qed.

(** X18.  A background launch that no signal disturbs: with a free slot
    and a new pid, eval registers the job as BG in the first free slot
    with the next jid, restores the saved mask, prints "[jid] (pid)
    cmdline" (after addjob's own line when verbose) and is back at the
    prompt after five statements. *)
Theorem background_launch s cl prev p i :
  0 < p → absent p (jobs s) →
  scan (fun job => pid job =? 0) (jobs s) = Some i →
  ∃ s', mainline 5 (EvAdd cl false prev p) s = (Prompt, s') ∧
        jobs s' = <[i := mkjob p (nextjid s) BG cl]> (jobs s) ∧
        sigmask s' = prev ∧
        out s' = out s
                 ++ (if verbose s =? 0 then []
                     else [Stdout (sprintf "Added job [%d] %d %s\n"
                                           [D (nextjid s); D p; S_ cl])])
                 ++ [Stdout (sprintf "[%d] (%d) %s" [D (nextjid s); D p; S_ cl])].
Proof.
  intros Hp Habs Hs.
  destruct (launch_to_branch s cl false prev p i Hp Habs Hs 2)
    as (Hm & Hj & Hi & Hg & Ho).
  cbv zeta in *. change 5%nat with (3 + 2)%nat. rewrite Hm.
  set (sa := with_sigmask prev (snd (addjob s p BG cl))) in *.
  rewrite (mainline_step _ _ _ (EvPrint p i (nextjid s)) sa);
    [|by rewrite (tick_EvBranch _ _ _ _ _ Hi)].
  rewrite (mainline_step _ _ _ _ _ (tick_EvPrint _ _ _ _ _ Hi)).
  eexists. split; [reflexivity|]. split_and!; [done | done |].
  change (out (printf "[%d] (%d) %s"
                 [D (nextjid s); D p; S_ (cmdline (mkjob p (nextjid s) BG cl))] sa))
    with (out sa ++ [Stdout (sprintf "[%d] (%d) %s" [D (nextjid s); D p; S_ cl])]).
  rewrite Ho. unfold addjob. destruct (Z.ltb_spec p 1); [lia|].
  rewrite Hs. simpl. destruct (verbose s =? 0); simpl; by rewrite <- ?app_assoc.
Qed.

(** The first launch of a session, "sleep 100 &" with pid 5. *)
Lemma background_launch_witness :
  ∃ s', mainline 5 (EvAdd "sleep 100 &" false sigemptyset 5) (shell0 0) = (Prompt, s') ∧
        jobs s' = <[0%nat := mkjob 5 (nextjid (shell0 0)) BG "sleep 100 &"]> (jobs (shell0 0)) ∧
        sigmask s' = sigemptyset ∧
        out s' = out (shell0 0)
                 ++ (if verbose (shell0 0) =? 0 then []
                     else [Stdout (sprintf "Added job [%d] %d %s\n"
                                           [D (nextjid (shell0 0)); D 5; S_ "sleep 100 &"])])
                 ++ [Stdout (sprintf "[%d] (%d) %s"
                                     [D (nextjid (shell0 0)); D 5; S_ "sleep 100 &"])].
Proof.
  apply (background_launch (shell0 0) "sleep 100 &" sigemptyset 5 0%nat).
  - lia.
  - intros i job Hi. vm_compute in Hi.
    do 16 (destruct i as [|i]; [injection Hi as <-; simpl; lia|]). discriminate.
  - reflexivity.
Defined.

Lemma waitfg_polls n p j s :
  fgpid (jobs s) = p →
  ∃ s', mainline n (WfLoop p j) s = (WfLoop p j, s') ∧
        jobs s' = jobs s ∧ out s' = out s ++ replicate n (Sleep 1) ∧
        nextjid s' = nextjid s.
Proof.
  revert s. induction n as [|n IH]; intros s Hfg.
  { exists s. simpl. by rewrite app_nil_r. }
  destruct (IH (emit (Sleep 1) s) Hfg) as (s' & Hm & Hj & Ho & Hn).
  exists s'. split_and!; [|done| |done].
  - rewrite (mainline_step _ _ _ (WfLoop p j) (emit (Sleep 1) s)); [done|].
    unfold tick. simpl. rewrite Hfg. by rewrite Z.eqb_refl.
  - rewrite Ho. simpl. by rewrite <- app_assoc.
Qed.

(** X19.  A foreground launch that no signal disturbs never returns to the
    prompt: six statements after the fork eval is in the polling loop of
    waitfg, with the job registered as FG, and every further statement is
    another [sleep(1)] in that loop. *)
Theorem foreground_launch_waits s cl prev p i n :
  0 < p → absent p (jobs s) → no_fg (jobs s) →
  scan (fun job => pid job =? 0) (jobs s) = Some i →
  ∃ s', mainline (6 + n) (EvAdd cl true prev p) s = (WfLoop p (nextjid s), s') ∧
        jobs s' = <[i := mkjob p (nextjid s) FG cl]> (jobs s) ∧
        fgpid (jobs s') = p ∧
        out s' = out (snd (addjob s p FG cl)) ++ replicate n (Sleep 1).
Proof.
  intros Hp Habs Hno Hs.
  destruct (launch_to_branch s cl true prev p i Hp Habs Hs (3 + n))
    as (Hm & Hj & Hi & Hg & Ho).
  cbv zeta in *. change (6 + n)%nat with (3 + (3 + n))%nat. rewrite Hm.
  set (sa := with_sigmask prev (snd (addjob s p FG cl))) in *.
  assert (fgpid (jobs sa) = p) as Hfg.
  { rewrite (fgpid_only _ i _ Hi); [done | done |].
    rewrite Hj. by apply insert_fg_within. }
  change (3 + n)%nat with (S (S (S n))).
  rewrite (mainline_step _ _ _ (WfLookup p) sa);
    [|by rewrite (tick_EvBranch _ _ _ _ _ Hi)].
  rewrite (mainline_step _ _ _ _ _ (tick_WfLookup _ _ _ _ Hg Hi)).
  rewrite (mainline_step _ _ _ (WfLoop p (nextjid s)) sa);
    [|apply tick_WfCheck; lia].
  destruct (waitfg_polls n p (nextjid s) sa Hfg) as (s' & Hw & Hjs & Ho' & _).
  exists s'. split_and!; [done | by rewrite Hjs | by rewrite Hjs | by rewrite Ho', Ho].
Qed.

(** "sleep 10" with pid 5 as the first command, and three polls. *)
Lemma foreground_launch_waits_witness :
  ∃ s', mainline (6 + 3) (EvAdd "sleep 10" true sigemptyset 5) (shell0 0)
        = (WfLoop 5 (nextjid (shell0 0)), s') ∧
        jobs s' = <[0%nat := mkjob 5 (nextjid (shell0 0)) FG "sleep 10"]> (jobs (shell0 0)) ∧
        fgpid (jobs s') = 5 ∧
        out s' = out (snd (addjob (shell0 0) 5 FG "sleep 10")) ++ replicate 3 (Sleep 1).
Proof.
  apply (foreground_launch_waits (shell0 0) "sleep 10" sigemptyset 5 0%nat 3).
  - lia.
  - intros i job Hi. vm_compute in Hi.
    do 16 (destruct i as [|i]; [injection Hi as <-; simpl; lia|]). discriminate.
  - intros i job Hi. vm_compute in Hi.
    do 16 (destruct i as [|i]; [injection Hi as <-; simpl; done|]). discriminate.
  - reflexivity.
Defined.

Lemma alter_off_fg (f : job_t → job_t) (l : list job_t) i job :
  l !! i = Some job → state job = FG → at_most_one_fg l →
  (∀ x, state (f x) ≠ FG) → no_fg (alter f i l).
Proof.
  intros Hi Hf Hone Hoff k job' (x & Hx & [[-> ->] | [Hne ->]])%lookup_alter_Some.
  - apply Hoff.
  - intros Hf'. destruct Hne. by apply (Hone k i x job).
Qed.

(** X20.  The end of a foreground wait that nothing else disturbs: one
    run of the SIGCHLD handler reaps the child that waitfg is polling for,
    and no other handler runs before waitfg has returned.  The job leaves
    the foreground (cleared, or stopped), two statements later waitfg has
    returned to the prompt with no foreground job, and it has printed
    "Job [jid] (pid) is terminated by signal 2" for a kill by SIGINT,
    "... is stopped by signal 20" for a stop, and nothing for any other
    end. *)
Theorem foreground_wait_ends sh p j status rest none i job :
  getjobpid (jobs sh) p = Some i → jobs sh !! i = Some job →
  state job = FG → at_most_one_fg (jobs sh) →
  ∃ sh1 sh2,
    sigchld_handler (mkkernel ((p, status) :: rest) none) sh
    = Ret (mkkernel rest none, sh1) ∧
    mainline 2 (WfLoop p j) sh1 = (Prompt, sh2) ∧
    jobs sh2 = jobs sh1 ∧ no_fg (jobs sh2) ∧
    out sh2 = out sh ++
      (if WTERMSIG status =? SIGINT then
         [Stdout (sprintf "Job [%d] (%d) is terminated by signal %d\n"
                          [D j; D p; D SIGINT])]
       else if WIFSTOPPED status then
         [Stdout (sprintf "Job [%d] (%d) is stopped by signal %d\n"
                          [D j; D p; D SIGTSTP])]
       else []).
Proof.
  intros Hg Hi Hf Hone.
  destruct (chld_reaps_tracked sh p status rest none i Hg)
    as (sh1 & Hh & _ & Ho & Hkind).
  pose proof (getjobpid_Some _ _ _ Hg) as (Hp & _).
  assert (no_fg (jobs sh1)) as Hno.
  { destruct (WTERMSIG status =? SIGINT); [|destruct (WIFSTOPPED status)];
      destruct Hkind as (_ & -> & _); by eapply alter_off_fg. }
  assert (fgpid (jobs sh1) ≠ p) as Hne by (rewrite (no_fg_fgpid _ Hno); lia).
  exists sh1.
  destruct (WTERMSIG status =? SIGINT); [|destruct (WIFSTOPPED status)];
    destruct Hkind as (Hfl & _ & _);
    (eexists; split; [done|];
     rewrite (mainline_step _ _ _ _ _ (tick_WfLoop_exit p j sh1 Hne));
     split; [unfold mainline, tick; simpl; rewrite Hfl; reflexivity|];
     simpl; rewrite ?Ho, ?app_nil_r; done).
Qed.

(** Ctrl-Z for the foreground job 5 that waitfg polls for. *)
Lemma foreground_wait_ends_witness :
  let sh := sh (after launch_fg_waiting) in
  ∃ sh1 sh2,
    sigchld_handler (mkkernel [(5, W_STOPPED_TSTP)] false) sh
    = Ret (mkkernel [] false, sh1) ∧
    mainline 2 (WfLoop 5 1) sh1 = (Prompt, sh2) ∧
    jobs sh2 = jobs sh1 ∧ no_fg (jobs sh2) ∧
    out sh2 = out sh ++
      (if WTERMSIG W_STOPPED_TSTP =? SIGINT then
         [Stdout (sprintf "Job [%d] (%d) is terminated by signal %d\n"
                          [D 1; D 5; D SIGINT])]
       else if WIFSTOPPED W_STOPPED_TSTP then
         [Stdout (sprintf "Job [%d] (%d) is stopped by signal %d\n"
                          [D 1; D 5; D SIGTSTP])]
       else []).
Proof.
  apply (foreground_wait_ends (sh (after launch_fg_waiting)) 5 1 W_STOPPED_TSTP
           [] false 0%nat (mkjob 5 1 FG "sleep 10")).
  - reflexivity.
  - reflexivity.
  - reflexivity.
  - intros i1 i2 j1 j2 H1 H2 Hf1 Hf2. vm_compute in H1, H2.
    assert (i1 = 0%nat) as ->.
    { do 16 (destruct i1 as [|i1];
             [first [done | injection H1 as <-; simpl in Hf1; discriminate]|]).
      discriminate. }
    do 16 (destruct i2 as [|i2];
           [first [done | injection H2 as <-; simpl in Hf2; discriminate]|]).
    discriminate.
Defined.

(** * fg and bg on a live job *)

Lemma getjobjid_Some (l : list job_t) j i :
  getjobjid l j = Some i → ∃ job, l !! i = Some job ∧ jid job = j.
Proof.
  unfold getjobjid. destruct (j <? 1); [done|].
  intros (job & Hi & Ht & _)%scan_Some. exists job. split; [done | lia].
Qed.

Lemma getjobpid_alter_state st (l : list job_t) i q :
  getjobpid (alter (set_state st) i l) q = getjobpid l q.
Proof.
  unfold getjobpid. destruct (q <? 1); [done|]. by apply scan_alter_same.
Qed.

(** do_bgfg with a %jid argument, up to the lookup of the job. *)
Lemma tick_BfStart_jid argv0 rest args s :
  tick (BfStart (argv0 :: String "%" rest :: args)) s
  = Some (BfJidLookup argv0 (fst (strtol_int rest s)), snd (strtol_int rest s)).
Proof.
  unfold tick. simpl. change (strncmp0 (String "%" rest) "%" 1) with true.
  cbv iota. by destruct (strtol_int rest s).
Qed.

(** do_bgfg with a %jid that a job has, up to the choice between fg and
    bg: four statements, the job list untouched. *)
Lemma bgfg_jid_resolved argv0 rest args s i job n :
  getjobjid (jobs s) (fst (strtol_int rest s)) = Some i → jobs s !! i = Some job →
  let s1 := snd (strtol_int rest s) in
  mainline (4 + n) (BfStart (argv0 :: String "%" rest :: args)) s
  = mainline n (BfDispatch argv0 (pid job) (fst (strtol_int rest s)) i) s1 ∧
  jobs s1 = jobs s ∧ nextjid s1 = nextjid s ∧ out s1 = out s.
Proof.
  intros Hg Hi s1. pose proof (strtol_int_frame rest s) as (Hj & _ & Hn & Ho).
  fold s1 in Hj, Hn, Ho. split; [|done].
  destruct (getjobjid_Some _ _ _ Hg) as (job' & Hi' & Hjid).
  assert (job' = job) as -> by congruence.
  change (4 + n)%nat with (S (S (S (S n)))).
  rewrite (mainline_step _ _ _ _ _ (tick_BfStart_jid argv0 rest args s)). fold s1.
  rewrite (mainline_step _ _ _
             (BfJidMax argv0 (fst (strtol_int rest s)) (Some i)) s1);
    [|unfold tick; simpl; by rewrite Hj, Hg].
  rewrite (mainline_step _ _ _
             (BfJidPid argv0 (fst (strtol_int rest s)) (Some i)) s1).
  2:{ unfold tick. simpl. rewrite Hj.
      pose proof (maxjid_ge _ _ _ Hi).
      by destruct (Z.gtb_spec (fst (strtol_int rest s)) (maxjid (jobs s))); [lia|]. }
  apply mainline_step. unfold tick. simpl. by rewrite Hj, Hi.
Qed.

(** X21.  bg with the %jid of a job, undisturbed: the job's state becomes
    BG, "[jid] (pid) cmdline" is printed, SIGCONT is sent to the job's
    process group, and do_bgfg is back at the prompt after eight
    statements; no other slot and no other global is written. *)
Theorem bg_by_jid argv0 rest args s i job :
  strncmp0 argv0 "fg" 2 = false → strncmp0 argv0 "bg" 2 = true →
  getjobjid (jobs s) (fst (strtol_int rest s)) = Some i → jobs s !! i = Some job →
  ∃ s', mainline 8 (BfStart (argv0 :: String "%" rest :: args)) s = (Prompt, s') ∧
        jobs s' = alter (set_state BG) i (jobs s) ∧ nextjid s' = nextjid s ∧
        out s' = out s ++
          [Stdout (sprintf "[%d] (%d) %s"
                           [D (jid job); D (pid job); S_ (cmdline job)]);
           Kill (- pid job) SIGCONT].
Proof.
  intros Hfg Hbg Hg Hi.
  destruct (bgfg_jid_resolved argv0 rest args s i job 4 Hg Hi) as (Hm & Hj & Hn & Ho).
  cbv zeta in *. change 8%nat with (4 + 4)%nat. rewrite Hm.
  destruct (getjobjid_Some _ _ _ Hg) as (job' & Hi' & <-).
  assert (job' = job) as -> by congruence.
  set (s1 := snd (strtol_int rest s)) in *.
  rewrite (mainline_step _ _ _ (BfBgSet (pid job) (jid job) i) s1);
    [|unfold tick; simpl; by rewrite Hfg, Hbg].
  rewrite (mainline_step _ _ _ (BfBgPrint (pid job) (jid job) i)
             (with_jobs (alter (set_state BG) i (jobs s1)) s1)) by done.
  rewrite (mainline_step _ _ _ (BfBgCont (pid job))
             (printf "[%d] (%d) %s" [D (jid job); D (pid job); S_ (cmdline job)]
                (with_jobs (alter (set_state BG) i (jobs s1)) s1))).
  2:{ unfold tick. simpl. rewrite list_lookup_alter_eq, Hj, Hi. reflexivity. }
  eexists. split; [reflexivity|]. simpl.
  rewrite Hj, Hn, Ho. split_and!; [done | done |]. by rewrite <- app_assoc.
Qed.

(** "bg %1" for the stopped job of a foreground launch. *)
Lemma bg_by_jid_witness :
  let s := with_jobs (alter (set_state ST) 0%nat (jobs (sh (after launch_fg_waiting))))
                     (sh (after launch_fg_waiting)) in
  ∃ s', mainline 8 (BfStart ["bg"; "%1"]) s = (Prompt, s') ∧
        jobs s' = alter (set_state BG) 0%nat (jobs s) ∧ nextjid s' = nextjid s ∧
        out s' = out s ++
          [Stdout (sprintf "[%d] (%d) %s"
                           [D (jid (mkjob 5 1 ST "sleep 10"));
                            D (pid (mkjob 5 1 ST "sleep 10"));
                            S_ (cmdline (mkjob 5 1 ST "sleep 10"))]);
           Kill (- pid (mkjob 5 1 ST "sleep 10")) SIGCONT].
Proof.
  apply (bg_by_jid "bg" "1" []
           (with_jobs (alter (set_state ST) 0%nat (jobs (sh (after launch_fg_waiting))))
                      (sh (after launch_fg_waiting)))
           0%nat (mkjob 5 1 ST "sleep 10")); reflexivity.
Defined.

(** X22.  fg with the %jid of a job, undisturbed and with no job in the
    foreground: SIGTSTP and then SIGCONT are sent to the job's process
    group, the job's state becomes FG in between, and eleven statements
    after its start do_bgfg is in the polling loop of waitfg for that
    job, where every further statement is another [sleep(1)]. *)
Theorem fg_by_jid argv0 rest args s i job n :
  strncmp0 argv0 "fg" 2 = true →
  getjobjid (jobs s) (fst (strtol_int rest s)) = Some i → jobs s !! i = Some job →
  getjobpid (jobs s) (pid job) = Some i → no_fg (jobs s) →
  ∃ s', mainline (11 + n) (BfStart (argv0 :: String "%" rest :: args)) s
        = (WfLoop (pid job) (jid job), s') ∧
        jobs s' = alter (set_state FG) i (jobs s) ∧ nextjid s' = nextjid s ∧
        fgpid (jobs s') = pid job ∧
        out s' = out s ++ [Kill (- pid job) SIGTSTP; Kill (- pid job) SIGCONT]
                 ++ replicate n (Sleep 1).
Proof.
  intros Hfg Hg Hi Hgp Hno.
  destruct (bgfg_jid_resolved argv0 rest args s i job (7 + n) Hg Hi)
    as (Hm & Hj & Hn & Ho).
  cbv zeta in *. change (11 + n)%nat with (4 + (7 + n))%nat. rewrite Hm.
  destruct (getjobjid_Some _ _ _ Hg) as (job' & Hi' & <-).
  assert (job' = job) as -> by congruence.
  pose proof (getjobpid_Some _ _ _ Hgp) as (Hp & _).
  set (s1 := snd (strtol_int rest s)) in *.
  set (s2 := kill (- pid job) SIGCONT
               (with_jobs (alter (set_state FG) i (jobs s1))
                  (kill (- pid job) SIGTSTP s1))).
  assert (jobs s2 = alter (set_state FG) i (jobs s)) as Hj2 by (by rewrite <- Hj).
  assert (jobs s2 !! i = Some (set_state FG job)) as Hi2.
  { by rewrite Hj2, list_lookup_alter_eq, Hi. }
  assert (fgpid (jobs s2) = pid job) as Hfp.
  { rewrite (fgpid_only _ i _ Hi2); [done | done |].
    rewrite Hj2. by apply alter_FG_fg_within. }
  assert (getjobpid (jobs s2) (pid job) = Some i) as Hg2.
  { rewrite Hj2, <- Hgp. apply getjobpid_alter_state. }
  change (7 + n)%nat with (S (S (S (S (S (S (S n))))))).
  rewrite (mainline_step _ _ _ (BfFgStop (pid job) i) s1);
    [|unfold tick; simpl; by rewrite Hfg].
  rewrite (mainline_step _ _ _ (BfFgSet (pid job) i) (kill (- pid job) SIGTSTP s1))
    by done.
  rewrite (mainline_step _ _ _ (BfFgCont (pid job))
             (with_jobs (alter (set_state FG) i (jobs s1))
                (kill (- pid job) SIGTSTP s1))) by done.
  rewrite (mainline_step _ _ _ BfFgWait s2) by done.
  rewrite (mainline_step _ _ _ (WfLookup (pid job)) s2);
    [|unfold tick; simpl; by rewrite <- Hfp].
  rewrite (mainline_step _ _ _ _ _ (tick_WfLookup _ _ _ _ Hg2 Hi2)).
  rewrite (mainline_step _ _ _ (WfLoop (pid job) (jid job)) s2);
    [|apply tick_WfCheck; lia].
  destruct (waitfg_polls n (pid job) (jid job) s2 Hfp) as (s' & Hw & Hjs & Ho' & Hn').
  exists s'. split_and!; [done | by rewrite Hjs | by rewrite Hn' | by rewrite Hjs |].
  rewrite Ho'. simpl. rewrite Ho. by rewrite <- !app_assoc.
Qed.

(** "fg %1" for the stopped job of a foreground launch, and two polls. *)
Lemma fg_by_jid_witness :
  let s := with_jobs (alter (set_state ST) 0%nat (jobs (sh (after launch_fg_waiting))))
                     (sh (after launch_fg_waiting)) in
  let job := mkjob 5 1 ST "sleep 10" in
  ∃ s', mainline (11 + 2) (BfStart ["fg"; "%1"]) s
        = (WfLoop (pid job) (jid job), s') ∧
        jobs s' = alter (set_state FG) 0%nat (jobs s) ∧ nextjid s' = nextjid s ∧
        fgpid (jobs s') = pid job ∧
        out s' = out s ++ [Kill (- pid job) SIGTSTP; Kill (- pid job) SIGCONT]
                 ++ replicate 2 (Sleep 1).
Proof.
  apply (fg_by_jid "fg" "1" []
           (with_jobs (alter (set_state ST) 0%nat (jobs (sh (after launch_fg_waiting))))
                      (sh (after launch_fg_waiting)))
           0%nat (mkjob 5 1 ST "sleep 10") 2); try reflexivity.
  intros i job Hi. vm_compute in Hi.
  do 16 (destruct i as [|i]; [injection Hi as <-; simpl; done|]). discriminate.
Defined.

(** X23.  fg or bg with a %jid above [maxjid(jobs)]: after three
    statements do_bgfg is back at the prompt, having printed
    "%<jid> : No such job" on stderr and nothing else; the list and
    [nextjid] are untouched and no signal is sent. *)
Theorem bgfg_no_such_job argv0 rest args s :
  maxjid (jobs s) < fst (strtol_int rest s) →
  ∃ s', mainline 3 (BfStart (argv0 :: String "%" rest :: args)) s = (Prompt, s') ∧
        jobs s' = jobs s ∧ nextjid s' = nextjid s ∧
        out s' = out s ++
          [Stderr (sprintf "%%%d : No such job\n" [D (fst (strtol_int rest s))])].
Proof.
  intros Hmax. pose proof (strtol_int_frame rest s) as (Hj & _ & Hn & Ho).
  set (s1 := snd (strtol_int rest s)) in *.
  rewrite (mainline_step _ _ _ _ _ (tick_BfStart_jid argv0 rest args s)). fold s1.
  rewrite (mainline_step _ _ _
             (BfJidMax argv0 (fst (strtol_int rest s))
                (getjobjid (jobs s1) (fst (strtol_int rest s)))) s1) by done.
  eexists. split.
  { unfold mainline, tick. simpl. rewrite Hj.
    destruct (Z.gtb_spec (fst (strtol_int rest s)) (maxjid (jobs s))); [|lia].
    reflexivity. }
  simpl. by rewrite Hj, Hn, Ho.
Qed.

(** "fg %7" with the jobs 1, 2, 3. *)
Lemma bgfg_no_such_job_witness :
  ∃ s', mainline 3 (BfStart ["fg"; "%7"]) three_jobs = (Prompt, s') ∧
        jobs s' = jobs three_jobs ∧ nextjid s' = nextjid three_jobs ∧
        out s' = out three_jobs ++
          [Stderr (sprintf "%%%d : No such job\n" [D (fst (strtol_int "7" three_jobs))])].
Proof. apply (bgfg_no_such_job "fg" "7" [] three_jobs). by vm_compute. Defined.

(** X24.  fg or bg with an argument that is not a %jid and names no job:
    do_bgfg returns to the prompt within three statements with the list
    and [nextjid] untouched and no signal sent.  It prints
    "(<pid>): No such process"; only when errno is nonzero after strtol
    and the number read is 0 does it print "argument must be a PID or
    %jobid" instead, restoring errno. *)
Theorem bgfg_no_such_process argv0 a1 args s :
  strncmp0 a1 "%" 1 = false →
  getjobpid (jobs s) (fst (strtol_int a1 s)) = None →
  let mypid := fst (strtol_int a1 s) in
  let bad := negb (errno (snd (strtol_int a1 s)) =? 0) && (mypid =? 0) in
  ∃ s', mainline 3 (BfStart (argv0 :: a1 :: args)) s = (Prompt, s') ∧
        jobs s' = jobs s ∧ nextjid s' = nextjid s ∧
        (bad = true → errno s' = errno s) ∧
        out s' = out s ++
          [Stderr (if bad then sprintf "argument must be a PID or %%jobid\n" []
                   else sprintf "(%d): No such process\n" [D mypid])].
Proof.
  intros Hpct Hg. simpl. unfold mainline, tick. simpl. rewrite Hpct.
  pose proof (strtol_int_frame a1 s) as (Hj & _ & Hn & Ho).
  destruct (strtol_int a1 s) as [mypid s1]. simpl in *.
  destruct (negb _ && _); simpl.
  - eexists. split; [reflexivity|]. simpl. by rewrite Hj, Hn, Ho.
  - rewrite Hj, Hg. eexists. split; [reflexivity|]. simpl.
    by rewrite Hj, Hn, Ho.
Qed.

(** "bg 99" with the jobs 11, 12, 13. *)
Lemma bgfg_no_such_process_witness :
  let mypid := fst (strtol_int "99" three_jobs) in
  let bad := negb (errno (snd (strtol_int "99" three_jobs)) =? 0) && (mypid =? 0) in
  ∃ s', mainline 3 (BfStart ["bg"; "99"]) three_jobs = (Prompt, s') ∧
        jobs s' = jobs three_jobs ∧ nextjid s' = nextjid three_jobs ∧
        (bad = true → errno s' = errno three_jobs) ∧
        out s' = out three_jobs ++
          [Stderr (if bad then sprintf "argument must be a PID or %%jobid\n" []
                   else sprintf "(%d): No such process\n" [D mypid])].
Proof. apply (bgfg_no_such_process "bg" "99" [] three_jobs); reflexivity. Defined.

(** * The command line *)

Lemma append_nil (b : string) : EmptyString +:+ b = b.
Proof. reflexivity. Qed.

Lemma append_cons x (a b : string) : String x a +:+ b = String x (a +:+ b).
Proof. reflexivity. Qed.

Lemma append_assoc (a b c : string) : (a +:+ b) +:+ c = a +:+ (b +:+ c).
Proof.
  induction a as [|x a IH]; [done|]. by rewrite !append_cons, IH.
Qed.

Lemma length_append (a b : string) :
  String.length (a +:+ b) = (String.length a + String.length b)%nat.
Proof.
  induction a as [|x a IH]; [done|]. rewrite append_cons. simpl. by rewrite IH.
Qed.

Lemma append_nonempty (a b : string) :
  b ≠ EmptyString → a +:+ b ≠ EmptyString.
Proof. destruct a; [done|]. by rewrite append_cons. Qed.

Lemma length_blanks k : String.length (blanks k) = k.
Proof. induction k as [|k IH]; simpl; [done|by rewrite IH]. Qed.

Lemma set_last_space_app (a b : string) :
  b ≠ EmptyString → set_last_space (a +:+ b) = a +:+ set_last_space b.
Proof.
  intros Hb. induction a as [|x a IH]; [done|].
  rewrite !append_cons. simpl.
  pose proof (append_nonempty a b Hb) as Hab.
  destruct (a +:+ b) eqn:E; [done|]. by rewrite <- IH.
Qed.

Lemma skip_blanks_blanks k r : skip_blanks (blanks k +:+ r) = skip_blanks r.
Proof. induction k as [|k IH]; [done|exact IH]. Qed.

Lemma blanks_shift k r :
  blanks k +:+ String " " r = String " " (blanks k +:+ r).
Proof.
  induction k as [|k IH]; [done|].
  simpl. rewrite !append_cons. by rewrite IH.
Qed.

Lemma strchr_app t c r :
  has_char c t = false → strchr (t +:+ String c r) c = Some (t, r).
Proof.
  induction t as [|a t IH].
  - intros _. rewrite append_nil. simpl. by rewrite Ascii.eqb_refl.
  - intros [Ha Ht]%orb_false_elim.
    rewrite append_cons. simpl. by rewrite Ha, (IH Ht).
Qed.

(** The search for the delimiter finds the end of a word. *)
Lemma next_arg_word x r :
  word_ok x = true →
  ∃ rest, next_arg (render x +:+ String " " r) = Some (text x, rest) ∧
          skip_blanks rest = skip_blanks r.
Proof.
  destruct x as [w|w]; simpl.
  - destruct w as [|a w]; [done|].
    intros [Hq Hb]%andb_true_iff.
    apply negb_true_iff in Hq. apply negb_true_iff in Hb.
    exists r. split; [|done].
    rewrite append_cons. unfold next_arg. rewrite Hq.
    rewrite <- append_cons. by apply strchr_app.
  - intros Hq%negb_true_iff.
    exists (String " " r). split; [|done].
    rewrite append_assoc, append_cons, append_nil. by apply strchr_app.
Qed.

Lemma skip_blanks_render x r :
  word_ok x = true → skip_blanks (render x +:+ r) = render x +:+ r.
Proof.
  destruct x as [w|w]; simpl; [|done].
  destruct w as [|a w]; [done|].
  intros [_ Hb]%andb_true_iff. apply negb_true_iff in Hb.
  simpl in Hb. apply orb_false_elim in Hb as [Ha _].
  rewrite append_cons. simpl. by rewrite Ha.
Qed.

Lemma spaced_cons x k xs :
  spaced ((x, k) :: xs) = render x +:+ String " " (blanks k +:+ spaced xs).
Proof. simpl. by rewrite blanks_shift. Qed.

Lemma skip_blanks_spaced xs :
  words_ok xs → skip_blanks (spaced xs) = spaced xs.
Proof.
  intros Hok. destruct xs as [|[x k] xs]; [done|].
  apply Forall_cons in Hok as [Hx _]. by apply skip_blanks_render.
Qed.

Lemma parse_args_S n buf :
  parse_args (S n) buf =
    match next_arg buf with
    | Some (a, rest) => a :: parse_args n (skip_blanks rest)
    | None => []
    end.
Proof. reflexivity. Qed.

Lemma parse_args_spaced xs :
  words_ok xs →
  ∀ n, (String.length (spaced xs) ≤ n)%nat → parse_args n (spaced xs) = texts xs.
Proof.
  induction xs as [|[x k] xs IH]; intros Hok n Hn.
  - by destruct n.
  - apply Forall_cons in Hok as [Hx Hok]. simpl in Hx.
    rewrite spaced_cons in *.
    rewrite length_append in Hn. simpl in Hn.
    rewrite length_append in Hn.
    destruct n as [|n]; [lia|].
    destruct (next_arg_word x (blanks k +:+ spaced xs) Hx) as (rest & Hna & Hsk).
    rewrite parse_args_S, Hna, Hsk, skip_blanks_blanks, (skip_blanks_spaced _ Hok).
    rewrite IH; [done|done|lia].
Qed.

Lemma words_spaced xs :
  xs ≠ [] → words xs +:+ String " " EmptyString = spaced xs.
Proof.
  induction xs as [|[x k] xs IH]; [done|]. intros _.
  change (words ((x, k) :: xs)) with
    (render x +:+ blanks k +:+
     match xs with [] => EmptyString | _ :: _ => String " " (words xs) end).
  change (spaced ((x, k) :: xs)) with
    (render x +:+ blanks k +:+ String " " (spaced xs)).
  rewrite !append_assoc. f_equal. f_equal.
  destruct xs as [|y xs]; [done|].
  rewrite append_cons. f_equal. by apply IH.
Qed.

Lemma strchr_length buf c t rest :
  strchr buf c = Some (t, rest) → (String.length rest < String.length buf)%nat.
Proof.
  revert t. induction buf as [|a buf IH]; intros t; simpl; [done|].
  destruct (Ascii.eqb a c).
  - intros [= _ ->]. lia.
  - destruct (strchr buf c) as [[t' rest']|]; [|done].
    intros [= _ <-]. specialize (IH _ eq_refl). lia.
Qed.

Lemma skip_blanks_length buf :
  (String.length (skip_blanks buf) ≤ String.length buf)%nat.
Proof.
  induction buf as [|a buf IH]; simpl; [done|].
  destruct (Ascii.eqb a " "); simpl; lia.
Qed.

Lemma next_arg_length buf a rest :
  next_arg buf = Some (a, rest) →
  (String.length (skip_blanks rest) < String.length buf)%nat.
Proof.
  pose proof (skip_blanks_length rest) as Hsk.
  destruct buf as [|b buf]; [done|]. unfold next_arg.
  destruct (Ascii.eqb b "'"); intros H%strchr_length; simpl in *; lia.
Qed.

(** The loop of [parseline] ends within the bound given to [parse_args]:
    more fuel gives the same arguments. *)
Lemma parse_args_fuel n m buf :
  (String.length buf ≤ n)%nat → (String.length buf ≤ m)%nat →
  parse_args n buf = parse_args m buf.
Proof.
  revert m buf. induction n as [|n IH]; intros m buf Hn Hm.
  - destruct buf; [|simpl in Hn; lia]. by destruct m.
  - destruct m as [|m].
    + destruct buf; [done|simpl in Hm; lia].
    + rewrite !parse_args_S.
      destruct (next_arg buf) as [[a rest]|] eqn:E; [|done].
      apply next_arg_length in E. f_equal. apply IH; lia.
Qed.

(** What the argument loop of [parseline] starts from. *)
Lemma line_buf lead xs c :
  words_ok xs → skip_blanks (set_last_space (line lead xs c)) = spaced xs.
Proof.
  intros Hok. unfold line.
  rewrite set_last_space_app by (by apply append_nonempty).
  rewrite skip_blanks_blanks.
  destruct xs as [|xk xs].
  - done.
  - rewrite set_last_space_app by done.
    simpl set_last_space. rewrite words_spaced by done.
    by apply skip_blanks_spaced.
Qed.

Lemma length_texts xs : length (texts xs) = length xs.
Proof. unfold texts. by rewrite length_fmap. Qed.

Lemma parseline_line lead xs c :
  words_ok xs →
  Z.of_nat (String.length (line lead xs c)) < MAXLINE →
  parseline (line lead xs c) =
    if MAXARGS <=? Z.of_nat (length xs) then Fault
    else match last (texts xs) with
         | None => Ret ([], 1)
         | Some a => if ampersand a then Ret (removelast (texts xs), 1)
                     else Ret (texts xs, 0)
         end.
Proof.
  intros Hok Hlen. unfold parseline.
  destruct (Z.leb_spec MAXLINE (Z.of_nat (String.length (line lead xs c))));
    [lia|].
  destruct (line lead xs c) as [|c0 l] eqn:E.
  { exfalso. revert E. unfold line. by apply append_nonempty, append_nonempty. }
  cbv beta iota zeta. rewrite <- E.
  rewrite (line_buf _ _ _ Hok), (parse_args_spaced _ Hok) by done.
  rewrite length_texts.
  destruct (MAXARGS <=? Z.of_nat (length xs)); [done|].
  destruct (last (texts xs)) as [t|]; [|done].
  by destruct t.
Qed.

Lemma last_texts_snoc xs x k :
  last (texts (xs ++ [(x, k)])) = Some (text x) ∧
  removelast (texts (xs ++ [(x, k)])) = texts xs.
Proof.
  unfold texts. rewrite fmap_app. simpl. split.
  - by rewrite last_snoc.
  - by rewrite removelast_last.
Qed.

(** X25. A line of at most 127 words whose last word does not begin with
    an ampersand: [parseline] stores the words in [argv], without the
    quotes of the quoted ones, and returns 0.  Blanks before, between and
    after the words do not count, and the last character of the line is
    overwritten whatever it is. *)
Theorem parseline_words lead xs c a :
  words_ok xs →
  Z.of_nat (String.length (line lead xs c)) < MAXLINE →
  Z.of_nat (length xs) < MAXARGS →
  last (texts xs) = Some a → ampersand a = false →
  parseline (line lead xs c) = Ret (texts xs, 0).
Proof.
  intros Hok Hlen Hn Hlast Ha.
  rewrite parseline_line by done.
  destruct (Z.leb_spec MAXARGS (Z.of_nat (length xs))); [lia|].
  by rewrite Hlast, Ha.
Qed.

Lemma parseline_words_witness :
  parseline (line 2 [(Plain "echo", 0%nat); (Quoted "a b", 3%nat);
                     (Plain "c&", 1%nat)] "010") =
  Ret (["echo"; "a b"; "c&"], 0).
Proof.
  apply (parseline_words 2 [(Plain "echo", 0%nat); (Quoted "a b", 3%nat);
                            (Plain "c&", 1%nat)] "010" "c&").
  - repeat constructor.
  - vm_compute. reflexivity.
  - vm_compute. reflexivity.
  - reflexivity.
  - reflexivity.
Defined.

(** X26. A line whose last word begins with an ampersand: that word is
    taken out of [argv] and [parseline] returns 1. *)
Theorem parseline_background lead xs x k c :
  words_ok (xs ++ [(x, k)]) →
  Z.of_nat (String.length (line lead (xs ++ [(x, k)]) c)) < MAXLINE →
  Z.of_nat (length xs) < MAXARGS - 1 →
  ampersand (text x) = true →
  parseline (line lead (xs ++ [(x, k)]) c) = Ret (texts xs, 1).
Proof.
  intros Hok Hlen Hn Ha.
  rewrite parseline_line by done.
  rewrite length_app. simpl length.
  destruct (Z.leb_spec MAXARGS (Z.of_nat (length xs + 1))); [lia|].
  destruct (last_texts_snoc xs x k) as [-> ->].
  by rewrite Ha.
Qed.

Lemma parseline_background_witness :
  parseline (line 0 ([(Plain "sleep", 0%nat); (Plain "10", 0%nat)] ++
                     [(Plain "&", 0%nat)]) "010") =
  Ret (["sleep"; "10"], 1).
Proof.
  apply (parseline_background 0 [(Plain "sleep", 0%nat); (Plain "10", 0%nat)]
                              (Plain "&") 0 "010").
  - repeat constructor.
  - vm_compute. reflexivity.
  - vm_compute. reflexivity.
  - reflexivity.
Defined.

(** X27. A line of blanks and one last character, a lone newline for
    one: [parseline] stores no argument and returns 1. *)
Theorem parseline_blank lead c :
  Z.of_nat lead < MAXLINE - 1 →
  parseline (blanks lead +:+ String c EmptyString) = Ret ([], 1).
Proof.
  intros Hlead.
  change (blanks lead +:+ String c EmptyString) with (line lead [] c).
  rewrite parseline_line; [done|constructor|].
  unfold line. rewrite length_append, length_blanks. simpl. lia.
Qed.

Lemma parseline_blank_witness :
  parseline (blanks 3 +:+ String "010" EmptyString) = Ret ([], 1).
Proof. apply (parseline_blank 3 "010"). vm_compute. reflexivity. Defined.

(** X28. A line of 128 words or more, which fits into [MAXLINE]
    characters when the words are short: [parseline] stores beyond the
    end of [argv]. *)
Theorem parseline_overflow lead xs c :
  words_ok xs →
  Z.of_nat (String.length (line lead xs c)) < MAXLINE →
  MAXARGS ≤ Z.of_nat (length xs) →
  parseline (line lead xs c) = Fault.
Proof.
  intros Hok Hlen Hn.
  rewrite parseline_line by done.
  destruct (Z.leb_spec MAXARGS (Z.of_nat (length xs))); [done|lia].
Qed.

Lemma parseline_overflow_witness :
  parseline (line 0 (replicate 128 (Plain "a", 0%nat)) "010") = Fault.
Proof.
  apply (parseline_overflow 0 (replicate 128 (Plain "a", 0%nat)) "010").
  - apply Forall_replicate. reflexivity.
  - vm_compute. reflexivity.
  - vm_compute. discriminate.
Defined.

Lemma eqb_0_agrees (z : Z) (b : bool) : (z = 0 ↔ b = true) → (z =? 0) = b.
Proof.
  intros H. destruct (Z.eqb_spec z 0) as [Hz|Hz], b; try done.
  - by apply H in Hz.
  - destruct Hz. by apply H.
Qed.

(** X29.  From a line to its command, for a line of at most 127 words
    whose last word does not begin with an ampersand, and a [strncmp] that
    returns 0 exactly when the compared characters agree.  A first word
    that begins with quit exits; otherwise one that begins with jobs
    lists the jobs; otherwise one that begins with bg or fg goes to
    [do_bgfg] with the words of the line as its argument vector.  Any
    other first word is launched, in the foreground and under the text of
    the whole line, only when the bitwise and of [strncmp(word, "bg", 2)]
    and [strncmp(word, "fg", 2)] is not 0; when it is 0, although neither
    result is, the line goes to [do_bgfg] as well. *)
Theorem line_command strncmp lead x k xs c a :
  words_ok ((x, k) :: xs) →
  Z.of_nat (String.length (line lead ((x, k) :: xs) c)) < MAXLINE →
  Z.of_nat (length xs) < MAXARGS - 1 →
  last (texts ((x, k) :: xs)) = Some a → ampersand a = false →
  strncmp_agrees strncmp (text x) →
  eval_command strncmp (line lead ((x, k) :: xs) c) =
    Ret (if strncmp0 (text x) "quit" 4 then CmdQuit
         else if strncmp0 (text x) "jobs" 4 then CmdJobs
         else if strncmp0 (text x) "bg" 2 || strncmp0 (text x) "fg" 2
              then CmdBgfg (texts ((x, k) :: xs))
         else if Z.land (strncmp (text x) "bg" 2%nat)
                        (strncmp (text x) "fg" 2%nat) =? 0
              then CmdBgfg (texts ((x, k) :: xs))
         else CmdLaunch (line lead ((x, k) :: xs) c) false).
Proof.
  intros Hok Hlen Hn Hlast Ha (Hq & Hj & Hb & Hf). unfold eval_command.
  rewrite parseline_line by done.
  simpl length.
  destruct (Z.leb_spec MAXARGS (Z.of_nat (S (length xs)))); [lia|].
  rewrite Hlast, Ha.
  change (texts ((x, k) :: xs)) with (text x :: texts xs).
  cbv beta iota. unfold builtin_cmd.
  rewrite (eqb_0_agrees _ _ Hq), (eqb_0_agrees _ _ Hj).
  destruct (strncmp0 (text x) "quit" 4); [done|].
  destruct (strncmp0 (text x) "jobs" 4); [done|].
  destruct (strncmp0 (text x) "bg" 2).
  { rewrite (proj2 Hb eq_refl). by rewrite Z.land_0_l. }
  destruct (strncmp0 (text x) "fg" 2).
  { rewrite (proj2 Hf eq_refl). by rewrite Z.land_0_r. }
  simpl. by destruct (Z.land _ _ =? 0).
Qed.

(** With a [strncmp] that returns byte differences, 'r' - 'b' is 16 and
    'r' - 'f' is 12, whose bitwise and is 0: the line [rm x] is not
    launched but handed to [do_bgfg]. *)
Lemma line_command_witness :
  eval_command strncmp_bytes
    (line 0 [(Plain "rm", 0%nat); (Plain "x", 0%nat)] "010") =
  Ret (CmdBgfg ["rm"; "x"]).
Proof.
  apply (line_command strncmp_bytes 0 (Plain "rm") 0 [(Plain "x", 0%nat)]
                      "010" "x").
  - repeat constructor.
  - vm_compute. reflexivity.
  - vm_compute. reflexivity.
  - reflexivity.
  - reflexivity.
  - repeat split; vm_compute; discriminate.
Defined.
